(** * Journal-entry analysis ([scripts/analyze_je.py]): model and properties

    The script reads a workbook, and for every column of every sheet
    computes column statistics, a date range, a numeric summary and a
    Benford leading-digit analysis, then writes the reports.

    Conventions of the embedding.
    - A Python exception is a value of [exn]; a function that can raise
      returns a [result].
    - A binary64 float that sits in a numeric column is the decimal numeral
      that Python prints for it ([pyfloat]); a missing value (NaN) is [None].
      Infinities are not values of a spreadsheet cell and are left out.
    - Float arithmetic is exact: a float result is a rational number of [Q],
      and [+], [-], [*], [/] do not round.
    - [math.log10], pandas' date parser, the workbook reader and the
      CSV/JSON renderers are library code: they are the fields of
      [Library], and every result holds for any implementation of them. *)

From Stdlib Require Import ZArith QArith Qminmax Qfield Qround Lia.
From Stdlib Require Import List String Ascii DecimalString DecimalPos DecimalFacts.
From stdpp Require Import base option list gmap strings.

Local Open Scope string_scope.
Local Open Scope list_scope.

(* ===================================================================== *)
(** ** Python: exceptions, results, strings *)
(* ===================================================================== *)

Module Py.

Inductive exn : Type :=
| ZeroDivisionError
| IndexError
| ValueError
| KeyError
| OSError (what : string)
| SystemExit (msg : string).

Inductive result (A : Type) : Type :=
| Ok (a : A)
| Raise (e : exn).
Arguments Ok {A} a.
Arguments Raise {A} e.

#[global] Instance result_ret : MRet result := fun A a => Ok a.
#[global] Instance result_bind : MBind result := fun A B f m =>
  match m with
  | Ok a => f a
  | Raise e => Raise e
  end.

(** [s.lstrip(chars)]: drop the longest prefix made of characters of [chars]. *)
Fixpoint mem_char (c : ascii) (chars : string) : bool :=
  match chars with
  | EmptyString => false
  | String c' rest => if Ascii.eqb c c' then true else mem_char c rest
  end.

Fixpoint lstrip (chars s : string) : string :=
  match s with
  | EmptyString => EmptyString
  | String c rest => if mem_char c chars then lstrip chars rest else s
  end.

(** [s[0]] *)
Definition index0 (s : string) : result ascii :=
  match s with
  | EmptyString => Raise IndexError
  | String c _ => Ok c
  end.

(** [int(c)] for a one-character string. *)
Definition int_of_char (c : ascii) : result nat :=
  let n := nat_of_ascii c in
  if (48 <=? n)%nat && (n <=? 57)%nat then Ok (n - 48) else Raise ValueError.

(** [str(n)] for a non-negative integer. *)
Definition str_nat (n : nat) : string := NilEmpty.string_of_uint (Nat.to_uint n).

Fixpoint zeros (n : nat) : string :=
  match n with
  | O => EmptyString
  | S k => String "0" (zeros k)
  end.

(** [a / b] on integers, as a float; a zero divisor is an error. *)
Definition truediv (a b : nat) : result Q :=
  if (b =? 0)%nat then Raise ZeroDivisionError
  else Ok (inject_Z (Z.of_nat a) / inject_Z (Z.of_nat b))%Q.

(** A [dict] with string keys: insertion ordered, assignment overwrites in place. *)
Fixpoint dict_set {V} (k : string) (v : V) (d : list (string * V)) : list (string * V) :=
  match d with
  | [] => [(k, v)]
  | (k', v') :: rest =>
      if String.eqb k k' then (k, v) :: rest else (k', v') :: dict_set k v rest
  end.

Fixpoint dict_get {V} (k : string) (d : list (string * V)) : option V :=
  match d with
  | [] => None
  | (k', v') :: rest => if String.eqb k k' then Some v' else dict_get k rest
  end.

(** ["\n".join(lines)] *)
Fixpoint join_lines (lines : list string) : string :=
  match lines with
  | [] => EmptyString
  | [l] => l
  | l :: rest => l +:+ String "010" (join_lines rest)
  end.

End Py.
Import Py.

(* ===================================================================== *)
(** ** Floats as Python prints them *)
(* ===================================================================== *)

Module Float.

(** [FNum neg m e] is the float [± m × 10^e]; the decimal numeral of [m] is
    the digit string of the float's shortest representation. *)
Inductive pyfloat : Type :=
| FZero (neg : bool)
| FNum (neg : bool) (m : positive) (e : Z).

Definition fabs (x : pyfloat) : pyfloat :=
  match x with
  | FZero _ => FZero false
  | FNum _ m e => FNum false m e
  end.

Definition fneg (x : pyfloat) : pyfloat :=
  match x with
  | FZero s => FZero (negb s)
  | FNum s m e => FNum (negb s) m e
  end.

(** [x > 0] *)
Definition fpos (x : pyfloat) : bool :=
  match x with
  | FZero _ => false
  | FNum neg _ _ => negb neg
  end.

(** [x == 0] *)
Definition fis_zero (x : pyfloat) : bool :=
  match x with
  | FZero _ => true
  | FNum _ _ _ => false
  end.

Definition to_Q (x : pyfloat) : Q :=
  match x with
  | FZero _ => 0
  | FNum neg m e =>
      let a := (inject_Z (Z.pos m) * Qpower (10 # 1) e)%Q in
      if neg then Qopp a else a
  end.

(** A float as a reduction of a column answers it: a finite value, an
    infinity when the reduction overflows, or not a number. *)
Inductive xfloat : Type :=
| XFinite (x : Q)
| XInf (neg : bool)
| XNaN.

Definition digits_of (m : positive) : string := NilEmpty.string_of_uint (Pos.to_uint m).

Definition sign_prefix (neg : bool) : string := if neg then "-" else EmptyString.

(** exponent part of the scientific notation: sign and at least two digits *)
Definition exp_part (x : Z) : string :=
  let a := Z.to_nat (Z.abs x) in
  String "e" (String (if (x <? 0)%Z then "-" else "+")%char
    (if (a <? 10)%nat then String "0" (str_nat a) else str_nat a)).

(** [str(x)] (the same as [repr(x)]): fixed notation when the decimal
    point position is in (-4, 16], scientific notation otherwise. *)
Definition str (x : pyfloat) : string :=
  match x with
  | FZero neg => sign_prefix neg +:+ "0.0"
  | FNum neg m e =>
      let ds := digits_of m in
      let n := Z.of_nat (String.length ds) in
      let decpt := (n + e)%Z in
      sign_prefix neg +:+
      (if ((decpt <=? -4) || (16 <? decpt))%Z then
         match ds with
         | EmptyString => EmptyString
         | String d EmptyString => String d (exp_part (decpt - 1))
         | String d rest => String d (String "." rest) +:+ exp_part (decpt - 1)
         end
       else if (decpt <=? 0)%Z then
         "0." +:+ zeros (Z.to_nat (- decpt)) +:+ ds
       else if (n <=? decpt)%Z then
         ds +:+ zeros (Z.to_nat (decpt - n)) +:+ ".0"
       else
         substring 0 (Z.to_nat decpt) ds +:+ "." +:+
         substring (Z.to_nat decpt) (Z.to_nat (n - decpt)) ds)
  end.

End Float.
Import Float.

(* ===================================================================== *)
(** ** pandas: series and their reductions *)
(* ===================================================================== *)

Module Frame.

Inductive numeric_dtype : Type := Int64 | Float64 | Bool.

(** A timestamp is its number of nanoseconds since the epoch. *)
Definition Timestamp : Type := Z.

(** A cell of an [object] column. *)
Inductive pyobj : Type :=
| OStr (s : string)
| ONum (x : pyfloat)
| OTime (t : Timestamp).

(** A column: its dtype and its cells, [None] for a missing value. *)
Inductive Series : Type :=
| Numeric (dt : numeric_dtype) (xs : list (option pyfloat))
| Datetime (xs : list (option Timestamp))
| Object (xs : list (option pyobj)).

Definition is_numeric_dtype (s : Series) : bool :=
  match s with Numeric _ _ => true | _ => false end.

Definition is_datetime64_any_dtype (s : Series) : bool :=
  match s with Datetime _ => true | _ => false end.

Definition dtype_name (s : Series) : string :=
  match s with
  | Numeric Int64 _ => "int64"
  | Numeric Float64 _ => "float64"
  | Numeric Bool _ => "bool"
  | Datetime _ => "datetime64[ns]"
  | Object _ => "object"
  end.

(** [len(series)] *)
Definition len (s : Series) : nat :=
  match s with
  | Numeric _ xs => length xs
  | Datetime xs => length xs
  | Object xs => length xs
  end.

(** [series.empty] *)
Definition empty (s : Series) : bool := (len s =? 0)%nat.

Definition dropna {A} (xs : list (option A)) : list A := omap (fun c => c) xs.

(** [xs.notna().sum()] and [xs.isna().sum()] on the cells *)
Definition notna_sum {A} (xs : list (option A)) : nat :=
  length (filter (fun c => is_Some c) xs).

Definition isna_sum {A} (xs : list (option A)) : nat :=
  length (filter (fun c => c = None) xs).

Definition series_notna_sum (s : Series) : nat :=
  match s with
  | Numeric _ xs => notna_sum xs
  | Datetime xs => notna_sum xs
  | Object xs => notna_sum xs
  end.

Definition series_isna_sum (s : Series) : nat :=
  match s with
  | Numeric _ xs => isna_sum xs
  | Datetime xs => isna_sum xs
  | Object xs => isna_sum xs
  end.

(** The cells of a numeric series, and of a datetime series. *)
Definition numeric_values (s : Series) : list (option pyfloat) :=
  match s with Numeric _ xs => xs | _ => [] end.

Definition datetime_values (s : Series) : list (option Timestamp) :=
  match s with Datetime xs => xs | _ => [] end.

(** [-series] on a numeric series *)
Definition neg (s : Series) : Series :=
  match s with
  | Numeric dt xs => Numeric dt (map (option_map fneg) xs)
  | other => other
  end.

(** The least and the greatest value of a numeric series; they skip missing
    values.  On a series without values pandas answers NaN for [min] and
    [max]; the callers below test the non-null count first, and that case is
    0 here.  A least or greatest value is one of the values, so nothing is
    rounded; [sum] and [mean] are not: see [Library]. *)
Definition present (s : Series) : list Q := map to_Q (dropna (numeric_values s)).

Definition Qsum (xs : list Q) : Q := fold_right Qplus 0%Q xs.

Definition series_min (s : Series) : Q :=
  match present s with
  | [] => 0%Q
  | x :: rest => fold_left Qmin rest x
  end.

Definition series_max (s : Series) : Q :=
  match present s with
  | [] => 0%Q
  | x :: rest => fold_left Qmax rest x
  end.

(** [series.nunique(dropna=True)] *)
Fixpoint count_distinct {A} (eqb : A -> A -> bool) (xs : list A) : nat :=
  match xs with
  | [] => 0
  | x :: rest =>
      if existsb (eqb x) rest then count_distinct eqb rest
      else S (count_distinct eqb rest)
  end.

Definition pyobj_eqb (a b : pyobj) : bool :=
  match a, b with
  | OStr s, OStr t => String.eqb s t
  | ONum x, ONum y => Qeq_bool (to_Q x) (to_Q y)
  | OTime t, OTime u => Z.eqb t u
  | _, _ => false
  end.

Definition nunique (s : Series) : nat :=
  match s with
  | Numeric _ xs => count_distinct (fun x y => Qeq_bool (to_Q x) (to_Q y)) (dropna xs)
  | Datetime xs => count_distinct Z.eqb (dropna xs)
  | Object xs => count_distinct pyobj_eqb (dropna xs)
  end.

(** [parsed.min()] and [parsed.max()] on timestamps: [None] is NaT. *)
Definition ts_min (xs : list (option Timestamp)) : option Timestamp :=
  match dropna xs with
  | [] => None
  | t :: rest => Some (fold_left Z.min rest t)
  end.

Definition ts_max (xs : list (option Timestamp)) : option Timestamp :=
  match dropna xs with
  | [] => None
  | t :: rest => Some (fold_left Z.max rest t)
  end.

End Frame.
Import Frame.

(* ===================================================================== *)
(** ** Tables and report records *)
(* ===================================================================== *)

Record DateRangeInfo : Type := {
  dr_non_null : nat;
  dr_min : option string;
  dr_max : option string;
}.

Record NumericSummary : Type := {
  ns_non_null : nat;
  ns_mean : xfloat;
  ns_min : Q;
  ns_max : Q;
  ns_sum : xfloat;
}.

Record BenfordResult : Type := {
  total : nat;
  chi_square : Q;
  counts : list (nat * nat);
  percentages : list (nat * Q);
}.

Record DataFrame : Type := {
  df_rows : nat;                           (* df.shape[0] *)
  df_columns : list (string * Series);     (* str(column), df[column] *)
}.

(** [pd.ExcelFile]: the sheet names, and [parse] that loads one sheet. *)
Record ExcelFile : Type := {
  sheet_names : list string;
  parse : string -> result DataFrame;
}.

Record ColumnStat : Type := {
  cs_sheet : string;
  cs_column : string;
  cs_dtype : string;
  cs_non_null : nat;
  cs_nulls : nat;
  cs_unique : nat;
}.

Record BenfordRow : Type := {
  br_sheet : string;
  br_column : string;
  br_total_values : nat;
  br_chi_square : Q;
  br_digit_pct : list (string * Q);
}.

Record SheetSummary : Type := {
  sheet : string;
  row_count : nat;
  column_count : nat;
  columns : list string;
  date_ranges : list (string * DateRangeInfo);
  numeric_summaries : list (string * NumericSummary);
}.

Record Summary : Type := {
  workbook : string;
  sheet_count : nat;
  sheets : list SheetSummary;
}.

(** The library functions the script calls. *)
Class Library : Type := {
  (** [math.log10] *)
  log10 : Q -> Q;
  (** [pd.to_datetime(series, errors="coerce", infer_datetime_format=True)]:
      the parsed cells, [None] (NaT) where a value does not parse *)
  to_datetime : Series -> list (option Timestamp);
  (** [Timestamp.isoformat()] *)
  isoformat : Timestamp -> string;
  (** [pd.ExcelFile(path)], from the bytes of the file *)
  open_excel : string -> result ExcelFile;
  (** [df.describe(include="all").to_csv()] *)
  describe_csv : DataFrame -> result string;
  (** [pd.DataFrame(column_rows).to_csv(index=False)] *)
  column_stats_csv : list ColumnStat -> string;
  (** [json.dumps(summary, indent=2)] *)
  json_dumps : Summary -> string;
  (** [pd.DataFrame(benford_rows).to_csv(index=False)] *)
  benford_csv : list BenfordRow -> string;
  (** ["{:.2f}".format(x)] *)
  format_2f : xfloat -> string;
  (** [float(series.sum())] and [float(series.mean())] of a numeric series:
      pandas adds an int64 column in int64, where the sum wraps around, and
      a float64 column in binary64, where every addition rounds and the sum
      can overflow; the mean is computed in binary64 *)
  series_sum : Series -> xfloat;
  series_mean : Series -> xfloat;
}.

(* ===================================================================== *)
(** ** The per-column analyses *)
(* ===================================================================== *)

Section Analyses.

Context `{L : Library}.

(** [t.isoformat()] where [t] may be NaT *)
Definition isoformat_nat (t : option Timestamp) : string :=
  match t with
  | Some t => isoformat t
  | None => "NaT"
  end.

(** The cells the date analysis looks at. *)
Definition parsed_dates (series : Series) : list (option Timestamp) :=
  if is_datetime64_any_dtype series then datetime_values series
  else to_datetime series.

Definition detect_date_range (series : Series) : result (option DateRangeInfo) :=
  if empty series then Ok None
  else
    let parsed := parsed_dates series in
    let non_null := notna_sum parsed in
    if (non_null =? 0)%nat then Ok None
    else
      ratio ← truediv non_null (len series);
      if Qlt_le_dec ratio (1 # 2) then Ok None
      else Ok (Some {|
        dr_non_null := non_null;
        dr_min := if (non_null =? 0)%nat then None
                  else Some (isoformat_nat (ts_min parsed));
        dr_max := if (non_null =? 0)%nat then None
                  else Some (isoformat_nat (ts_max parsed));
      |}).

Definition numeric_summary (series : Series) : option NumericSummary :=
  if negb (is_numeric_dtype series) then None
  else
    let non_null := series_notna_sum series in
    if (non_null =? 0)%nat then None
    else Some {|
      ns_non_null := non_null;
      ns_mean := series_mean series;
      ns_min := series_min series;
      ns_max := series_max series;
      ns_sum := series_sum series;
    |}.

(** [range(1, 10)] *)
Definition digit_range : list nat := seq 1 9.

(** [d[k]] on a digit-keyed dict or series, in key order. *)
Definition getitem {V} (d : list (nat * V)) (k : nat) : result V :=
  match List.find (fun kv => (fst kv =? k)%nat) d with
  | Some kv => Ok (snd kv)
  | None => Raise KeyError
  end.

Fixpoint traverse {A B} (f : A -> result B) (xs : list A) : result (list B) :=
  match xs with
  | [] => Ok []
  | x :: rest =>
      y ← f x;
      ys ← traverse f rest;
      Ok (y :: ys)
  end.

Definition of_int (n : nat) : Q := inject_Z (Z.of_nat n).

Definition benford_expected : list (nat * Q) :=
  map (fun digit => (digit, log10 (1 + 1 / of_int digit)%Q)) digit_range.

Definition leading_digit_of (value : pyfloat) : result nat :=
  c ← index0 (lstrip "0." (str value));
  int_of_char c.

Definition leading_digit (series : Series) : result (list nat) :=
  if negb (is_numeric_dtype series) then Ok []
  else
    let values := map fabs (dropna (numeric_values series)) in
    let values := List.filter fpos values in
    match values with
    | [] => Ok []
    | _ => traverse leading_digit_of values
    end.

(** [digits.value_counts()]: how often each value occurs. *)
Definition value_counts (digits : list nat) : gmap nat nat :=
  fold_right (fun d m => <[d := S (default 0%nat (m !! d))]> m) ∅ digits.

(** [.reindex(range(1, 10), fill_value=0).sort_index()] *)
Definition reindex (m : gmap nat nat) : list (nat * nat) :=
  map (fun d => (d, default 0%nat (m !! d))) digit_range.

(** [counts.sum()] *)
Definition sum_counts (cs : list (nat * nat)) : nat :=
  fold_right (fun kv acc => (snd kv + acc)%nat) 0%nat cs.

(** Element-wise operation of two series that carry the same index. *)
Definition series_zip {A B C} (f : A -> B -> C)
    (a : list (nat * A)) (b : list (nat * B)) : list (nat * C) :=
  map (fun ab => (fst (fst ab), f (snd (fst ab)) (snd (snd ab)))) (combine a b).

(** [((counts - expected_counts) ** 2) / expected_counts] *)
Definition chi_terms (cs : list (nat * nat)) (expected_counts : list (nat * Q))
    : list (nat * Q) :=
  series_zip (fun c e => ((of_int c - e) ^ 2 / e)%Q) cs expected_counts.

Definition benford_summary (series : Series) : result (option BenfordResult) :=
  digits ← leading_digit series;
  match digits with
  | [] => Ok None
  | _ =>
      let cs := reindex (value_counts digits) in
      let tot := sum_counts cs in
      let expected := benford_expected in
      expected_counts ← traverse
        (fun digit => p ← getitem expected digit; Ok (digit, (p * of_int tot)%Q))
        digit_range;
      let chi :=
        if (0 <? tot)%nat then Qsum (map snd (chi_terms cs expected_counts))
        else 0%Q in
      Ok (Some {|
        total := tot;
        chi_square := chi;
        counts := cs;
        percentages := map (fun kv => (fst kv, (of_int (snd kv) / of_int tot)%Q)) cs;
      |})
  end.

End Analyses.

(* ===================================================================== *)
(** ** Paths, the file system and code that acts on it *)
(* ===================================================================== *)

Module Disk.

(** *** Paths and files *)

Definition Path : Type := list string.

(** [p / name] for a name that is one component of a path.  pathlib splits
    a name at the separators it holds: what is proved about where a written
    file lies asks for names without a separator. *)
Definition joinpath (p : Path) (name : string) : Path := p ++ [name].

(** [p.name] *)
Definition path_name (p : Path) : string := List.last p EmptyString.

(** [str(p)] *)
Fixpoint path_str (p : Path) : string :=
  match p with
  | [] => "."
  | [c] => c
  | c :: rest => c +:+ "/" +:+ path_str rest
  end.

(** [p] and its ancestors, the nearest last *)
Definition prefixes (p : Path) : list Path :=
  map (fun n => firstn n p) (seq 1 (length p)).

(** The directories, the files with their contents, and the journal of
    every write so far, oldest first.  The journal is not read by the
    program: it records what a run has written. *)
Record FS : Type := {
  dirs : gset (list string);
  files : gmap (list string) string;
  journal : list (Path * string);
}.

Definition is_dir (fs : FS) (p : Path) : bool :=
  bool_decide (p = []) || bool_decide (p ∈ dirs fs).

Definition is_file (fs : FS) (p : Path) : bool :=
  bool_decide (is_Some (files fs !! p)).

(** Code that acts on the file system and may raise; the file system
    survives the exception. *)
Definition io (A : Type) : Type := FS -> result A * FS.

#[global] Instance io_ret : MRet io := fun A a fs => (Ok a, fs).

#[global] Instance io_bind : MBind io := fun A B f m fs =>
  match m fs with
  | (Ok a, fs') => f a fs'
  | (Raise e, fs') => (Raise e, fs')
  end.

Definition lift {A} (r : result A) : io A := fun fs => (r, fs).

Definition raise {A} (e : exn) : io A := fun fs => (Raise e, fs).

(** [p.exists()] *)
Definition path_exists (p : Path) : io bool :=
  fun fs => (Ok (is_dir fs p || is_file fs p), fs).

(** [p.mkdir(parents=True, exist_ok=True)] *)
Definition mkdir (p : Path) : io unit := fun fs =>
  if existsb (is_file fs) (prefixes p) then (Raise (OSError "FileExistsError"), fs)
  else (Ok tt, {| dirs := dirs fs ∪ list_to_set (prefixes p);
                  files := files fs;
                  journal := journal fs |}).

(** [p.write_text(data)], also what [to_csv(p)] does with its rendering *)
Definition write_text (p : Path) (data : string) : io unit := fun fs =>
  if is_dir fs p then (Raise (OSError "IsADirectoryError"), fs)
  else if negb (is_dir fs (removelast p)) then (Raise (OSError "FileNotFoundError"), fs)
  else (Ok tt, {| dirs := dirs fs;
                  files := <[p := data]> (files fs);
                  journal := journal fs ++ [(p, data)] |}).

(** the bytes of the file at [p] *)
Definition read_bytes (p : Path) : io string := fun fs =>
  match files fs !! p with
  | Some data => (Ok data, fs)
  | None =>
      (Raise (OSError (if is_dir fs p then "IsADirectoryError" else "FileNotFoundError")), fs)
  end.

Fixpoint foldM {A S} (f : S -> A -> io S) (xs : list A) (s : S) : io S :=
  match xs with
  | [] => mret s
  | x :: rest => s' ← f s x; foldM f rest s'
  end.

Fixpoint fold_result {A S} (f : S -> A -> result S) (xs : list A) (s : S) : result S :=
  match xs with
  | [] => Ok s
  | x :: rest => s' ← f s x; fold_result f rest s'
  end.

End Disk.
Import Disk.

(* ===================================================================== *)
(** ** [build_summary] and [main] *)
(* ===================================================================== *)

Section Pipeline.

Context `{L : Library}.

(** What the loop over the columns of one sheet updates. *)
Record Tallies : Type := {
  t_date_ranges : list (string * DateRangeInfo);
  t_numeric_summaries : list (string * NumericSummary);
  t_column_rows : list ColumnStat;
  t_benford_rows : list BenfordRow;
}.

Definition benford_row (sheet_name column : string) (info : BenfordResult)
    : result BenfordRow :=
  pcts ← traverse
    (fun digit =>
       p ← getitem (percentages info) digit;
       Ok ("digit_" +:+ str_nat digit +:+ "_pct", p))
    digit_range;
  Ok {|
    br_sheet := sheet_name;
    br_column := column;
    br_total_values := total info;
    br_chi_square := chi_square info;
    br_digit_pct := pcts;
  |}.

(** The body of [for column in df.columns]. *)
Definition column_step (sheet_name : string) (st : Tallies)
    (col : string * Series) : result Tallies :=
  let column := fst col in
  let series := snd col in
  let column_rows := t_column_rows st ++ [{|
    cs_sheet := sheet_name;
    cs_column := column;
    cs_dtype := dtype_name series;
    cs_non_null := series_notna_sum series;
    cs_nulls := series_isna_sum series;
    cs_unique := nunique series;
  |}] in
  date_info ← detect_date_range series;
  let date_ranges :=
    match date_info with
    | Some info => dict_set column info (t_date_ranges st)
    | None => t_date_ranges st
    end in
  let numeric_summaries :=
    match numeric_summary series with
    | Some info => dict_set column info (t_numeric_summaries st)
    | None => t_numeric_summaries st
    end in
  benford_info ← benford_summary series;
  benford_rows ←
    match benford_info with
    | Some info =>
        row ← benford_row sheet_name column info;
        Ok (t_benford_rows st ++ [row])
    | None => Ok (t_benford_rows st)
    end;
  Ok {|
    t_date_ranges := date_ranges;
    t_numeric_summaries := numeric_summaries;
    t_column_rows := column_rows;
    t_benford_rows := benford_rows;
  |}.

(** What the loop over the sheets updates. *)
Record Progress : Type := {
  p_sheets : list SheetSummary;
  p_column_rows : list ColumnStat;
  p_benford_rows : list BenfordRow;
}.

(** [output_dir / f"describe_{sheet_name}.csv"]: an entry of the output
    directory when the sheet name holds no separator. *)
Definition describe_path (output_dir : Path) (sheet_name : string) : Path :=
  joinpath output_dir ("describe_" +:+ sheet_name +:+ ".csv").

(** The body of [for sheet_name in workbook.sheet_names]. *)
Definition sheet_step (output_dir : Path) (wb : ExcelFile) (st : Progress)
    (sheet_name : string) : io Progress :=
  df ← lift (parse wb sheet_name);
  t ← lift (fold_result (column_step sheet_name) (df_columns df) {|
         t_date_ranges := [];
         t_numeric_summaries := [];
         t_column_rows := p_column_rows st;
         t_benford_rows := p_benford_rows st;
       |});
  let sheet_summary := {|
    sheet := sheet_name;
    row_count := df_rows df;
    column_count := length (df_columns df);
    columns := map fst (df_columns df);
    date_ranges := t_date_ranges t;
    numeric_summaries := t_numeric_summaries t;
  |} in
  csv ← lift (describe_csv df);
  write_text (describe_path output_dir sheet_name) csv;;
  mret {|
    p_sheets := p_sheets st ++ [sheet_summary];
    p_column_rows := t_column_rows t;
    p_benford_rows := t_benford_rows t;
  |}.

Definition str_opt (o : option string) : string := default "None" o.

Definition sheet_md_lines (sh : SheetSummary) : list string :=
  ["## Sheet: " +:+ sheet sh;
   "- Rows: **" +:+ str_nat (row_count sh) +:+ "**";
   "- Columns: **" +:+ str_nat (column_count sh) +:+ "**"]
  ++ (match date_ranges sh with
      | [] => []
      | items =>
          "- Date ranges:" ::
          map (fun ci =>
                 "  - " +:+ fst ci +:+ ": " +:+ str_opt (dr_min (snd ci)) +:+ " â†’ "
                 +:+ str_opt (dr_max (snd ci)) +:+ " (non-null "
                 +:+ str_nat (dr_non_null (snd ci)) +:+ ")") items
      end)
  ++ (match numeric_summaries sh with
      | [] => []
      | items =>
          "- Numeric summaries:" ::
          map (fun ci =>
                 "  - " +:+ fst ci +:+ ": mean " +:+ format_2f (ns_mean (snd ci))
                 +:+ ", min " +:+ format_2f (XFinite (ns_min (snd ci)))
                 +:+ ", max " +:+ format_2f (XFinite (ns_max (snd ci)))
                 +:+ ", sum " +:+ format_2f (ns_sum (snd ci))) items
      end)
  ++ [EmptyString].

Definition md_lines (excel_name : string) (summary : Summary)
    (benford_rows : list BenfordRow) : list string :=
  ["# Journal Entry Summary for `" +:+ excel_name +:+ "`";
   EmptyString;
   "Total sheets: **" +:+ str_nat (sheet_count summary) +:+ "**";
   EmptyString]
  ++ concat (map sheet_md_lines (sheets summary))
  ++ (match benford_rows with
      | [] => []
      | _ =>
          ["## Benford's Law Results";
           EmptyString;
           "Benford analysis is computed on numeric columns using leading digits.";
           "See `benford_summary.csv` for per-column distributions and chi-square scores.";
           EmptyString]
      end).

Definition index_lines : list string :=
  ["# Output Files";
   EmptyString;
   "This folder is generated by the journal entry analysis workflow.";
   EmptyString;
   "- `summary.json`: machine-readable summary";
   "- `summary.md`: human-readable summary";
   "- `column_stats.csv`: per-column statistics";
   "- `describe_<sheet>.csv`: pandas describe output per sheet";
   "- `benford_summary.csv`: Benford's Law leading digit distribution per column"].

Definition build_summary (excel_path output_dir : Path) : io unit :=
  mkdir output_dir;;
  data ← read_bytes excel_path;
  wb ← lift (open_excel data);
  st ← foldM (sheet_step output_dir wb) (sheet_names wb)
         {| p_sheets := []; p_column_rows := []; p_benford_rows := [] |};
  let summary := {|
    workbook := path_name excel_path;
    sheet_count := length (sheet_names wb);
    sheets := p_sheets st;
  |} in
  write_text (joinpath output_dir "column_stats.csv")
    (column_stats_csv (p_column_rows st));;
  write_text (joinpath output_dir "summary.json") (json_dumps summary);;
  match p_benford_rows st with
  | [] => mret tt
  | rows => write_text (joinpath output_dir "benford_summary.csv") (benford_csv rows)
  end;;
  write_text (joinpath output_dir "summary.md")
    (join_lines (md_lines (path_name excel_path) summary (p_benford_rows st)));;
  write_text (joinpath output_dir "index.md") (join_lines index_lines).

(** The parsed command line: [--input] and [--output] with their defaults. *)
Record Args : Type := {
  input : Path;
  output : Path;
}.

Definition parse_args (input_flag output_flag : option Path) : Args := {|
  input := default ["je_samples (1).xlsx"] input_flag;
  output := default ["outputs"] output_flag;
|}.

Definition main (args : Args) : io unit :=
  found ← path_exists (input args);
  if negb found
  then raise (SystemExit ("Input file not found: " +:+ path_str (input args)))
  else build_summary (input args) (output args).

(** The exit status of the process, and what it prints on its error stream. *)
Definition exit_status (r : result unit) : nat :=
  match r with
  | Ok _ => 0
  | Raise _ => 1
  end.

Definition error_stream (r : result unit) : string :=
  match r with
  | Ok _ => EmptyString
  | Raise (SystemExit msg) => msg
  | Raise _ => "Traceback (most recent call last):"
  end.

End Pipeline.

(* ===================================================================== *)
(** ** Vocabulary of the properties *)
(* ===================================================================== *)

(** A character among ['1'..'9']. *)
Definition nonzero_digit (c : ascii) : Prop :=
  (49 <= nat_of_ascii c <= 57)%nat.

(** The first decimal digit of [m]. *)
Definition first_digit (m : positive) : nat :=
  match digits_of m with
  | String c _ => nat_of_ascii c - 48
  | EmptyString => 0
  end.

(** The digit a cell contributes to the tally: none for a missing value or
    a zero, otherwise the first digit of the numeral, whatever the sign. *)
Definition cell_digit (c : option pyfloat) : option nat :=
  match c with
  | Some (FNum _ m _) => Some (first_digit m)
  | _ => None
  end.

Definition tallied_digits (s : Series) : list nat :=
  omap cell_digit (numeric_values s).

(** How many tallied values of the column have leading digit [d]. *)
Definition observed (s : Series) (d : nat) : nat :=
  count_occ Nat.eq_dec (tallied_digits s) d.

(** A cell that the tally skips: a missing value or a zero. *)
Definition skipped (c : option pyfloat) : Prop :=
  match c with
  | None => True
  | Some x => fis_zero x = true
  end.

(** [series.isna()] *)
Definition isna (s : Series) : list bool :=
  match s with
  | Numeric _ xs => map (fun c => bool_decide (c = None)) xs
  | Datetime xs => map (fun c => bool_decide (c = None)) xs
  | Object xs => map (fun c => bool_decide (c = None)) xs
  end.

(** The file system after the writes [w], oldest first, applied to [fs]. *)
Definition commit (fs : FS) (w : list (Path * string)) : FS := {|
  dirs := dirs fs;
  files := foldl (fun m pc => <[fst pc := snd pc]> m) (files fs) w;
  journal := journal fs ++ w;
|}.

(** Whenever [m] succeeds, it has committed some writes [w] and answers
    [a], with [Q a w]. *)
Definition post {A} (m : io A) (Q : A -> list (Path * string) -> Prop) : Prop :=
  forall fs a fs', m fs = (Ok a, fs') -> exists w, fs' = commit fs w /\ Q a w.

(** [m] does not look at the file system: its answer and its writes, when
    it succeeds, are the same whatever the file system it starts from. *)
Definition oblivious {A} (m : io A) : Prop :=
  exists o : option (A * list (Path * string)), post m (fun a w => o = Some (a, w)).

Section Vocabulary.

Context `{L : Library}.

(** The count the Benford distribution predicts for digit [d] among [tot]
    tallied values. *)
Definition expected_count (tot d : nat) : Q :=
  (log10 (1 + 1 / of_int d) * of_int tot)%Q.

(** The chi-square contribution of digit [d]. *)
Definition chi_term (s : Series) (d : nat) : Q :=
  let e := expected_count (length (tallied_digits s)) d in
  ((of_int (observed s d) - e) ^ 2 / e)%Q.

(** What [benford_summary] returns, in terms of the tallied digits. *)
Definition benford_of (s : Series) : BenfordResult := {|
  total := length (tallied_digits s);
  chi_square := Qsum (map (chi_term s) digit_range);
  counts := map (fun d => (d, observed s d)) digit_range;
  percentages :=
    map (fun d => (d, (of_int (observed s d) / of_int (length (tallied_digits s)))%Q))
      digit_range;
|}.

(** How many cells the date analysis reads as dates. *)
Definition parsed_count (s : Series) : nat := notna_sum (parsed_dates s).

(** The date parser is cell by cell: it answers one cell per input cell,
    and a missing input cell stays missing (NaN becomes NaT). *)
Definition keeps_missing : Prop :=
  forall s, Forall2 (fun missing p => missing = true -> p = None) (isna s) (to_datetime s).

(** A sheet that can be loaded and has a column with a Benford result. *)
Definition sheet_qualifies (wb : ExcelFile) (sheet_name : string) : Prop :=
  exists df col r,
    parse wb sheet_name = Ok df /\ In col (df_columns df)
    /\ benford_summary (snd col) = Ok (Some r).

(** Some column of some sheet of the workbook gets a Benford result. *)
Definition qualifies (wb : ExcelFile) : Prop :=
  exists sheet_name, In sheet_name (sheet_names wb) /\ sheet_qualifies wb sheet_name.

(** The files of a report, in the order they are written: one table per
    sheet, the column statistics, the summary, the Benford table when a
    column qualified, the narrative and the index. *)
Definition artifacts (output_dir : Path) (wb : ExcelFile) (with_benford : bool)
    : list Path :=
  map (describe_path output_dir) (sheet_names wb)
  ++ [joinpath output_dir "column_stats.csv"; joinpath output_dir "summary.json"]
  ++ (if with_benford then [joinpath output_dir "benford_summary.csv"] else [])
  ++ [joinpath output_dir "summary.md"; joinpath output_dir "index.md"].

(** The writes [w] are the artifacts of the workbook stored in [data]. *)
Definition report_writes (output_dir : Path) (data : string)
    (w : list (Path * string)) : Prop :=
  exists wb with_benford,
    open_excel data = Ok wb
    /\ map fst w = artifacts output_dir wb with_benford
    /\ (qualifies wb -> with_benford = true).

End Vocabulary.
(* ===================================================================== *)
(** ** A concrete library and sample data *)
(* ===================================================================== *)

(** An implementation of [Library] to run the script on: a three-decimal
    table of logarithms, ISO dates, and plain renderers. *)
Module Sample.

Definition log10_table (x : Q) : Q :=
  if Qeq_bool x 2 then 301 # 1000
  else if Qeq_bool x (3 # 2) then 176 # 1000
  else if Qeq_bool x (4 # 3) then 125 # 1000
  else if Qeq_bool x (5 # 4) then 97 # 1000
  else if Qeq_bool x (6 # 5) then 79 # 1000
  else if Qeq_bool x (7 # 6) then 67 # 1000
  else if Qeq_bool x (8 # 7) then 58 # 1000
  else if Qeq_bool x (9 # 8) then 51 # 1000
  else if Qeq_bool x (10 # 9) then 46 # 1000
  else 0.

(** Days since 1970-01-01 of a civil date, and back. *)
Definition days_from_civil (y m d : Z) : Z :=
  let y' := if (m <=? 2)%Z then (y - 1)%Z else y in
  let era := (y' / 400)%Z in
  let yoe := (y' - era * 400)%Z in
  let doy := ((153 * (if (2 <? m)%Z then m - 3 else m + 9) + 2) / 5 + d - 1)%Z in
  let doe := (yoe * 365 + yoe / 4 - yoe / 100 + doy)%Z in
  (era * 146097 + doe - 719468)%Z.

Definition civil_from_days (z : Z) : Z * Z * Z :=
  let z := (z + 719468)%Z in
  let era := (z / 146097)%Z in
  let doe := (z - era * 146097)%Z in
  let yoe := ((doe - doe / 1460 + doe / 36524 - doe / 146096) / 365)%Z in
  let doy := (doe - (365 * yoe + yoe / 4 - yoe / 100))%Z in
  let mp := ((5 * doy + 2) / 153)%Z in
  let d := (doy - (153 * mp + 2) / 5 + 1)%Z in
  let m := if (mp <? 10)%Z then (mp + 3)%Z else (mp - 9)%Z in
  let y := (yoe + era * 400 + (if (m <=? 2)%Z then 1 else 0))%Z in
  (y, m, d).

Definition ns_per_day : Z := 86400000000000.

Definition digit_value (c : ascii) : option Z :=
  let n := nat_of_ascii c in
  if (48 <=? n)%nat && (n <=? 57)%nat then Some (Z.of_nat (n - 48)) else None.

Fixpoint digits_value (s : string) (acc : Z) : option Z :=
  match s with
  | EmptyString => Some acc
  | String c rest =>
      match digit_value c with
      | Some v => digits_value rest (10 * acc + v)%Z
      | None => None
      end
  end.

(** ["YYYY-MM-DD"], checked by printing the date back *)
Definition parse_iso_date (s : string) : option Timestamp :=
  if negb (String.length s =? 10)%nat then None
  else if negb (String.eqb (substring 4 1 s) "-" && String.eqb (substring 7 1 s) "-") then None
  else
    y ← digits_value (substring 0 4 s) 0;
    m ← digits_value (substring 5 2 s) 0;
    d ← digits_value (substring 8 2 s) 0;
    let days := days_from_civil y m d in
    if bool_decide (civil_from_days days = (y, m, d)) then Some (days * ns_per_day)%Z
    else None.

Definition str_Z (z : Z) : string :=
  (if (z <? 0)%Z then "-" else EmptyString) +:+ NilEmpty.string_of_uint (N.to_uint (Z.abs_N z)).

Definition pad (width : nat) (n : Z) : string :=
  let s := str_Z n in
  zeros (width - String.length s) +:+ s.

Definition iso (t : Timestamp) : string :=
  let days := (t / ns_per_day)%Z in
  let rem := (t mod ns_per_day)%Z in
  let '(y, m, d) := civil_from_days days in
  let secs := (rem / 1000000000)%Z in
  let frac := (rem mod 1000000000)%Z in
  pad 4 y +:+ "-" +:+ pad 2 m +:+ "-" +:+ pad 2 d +:+ "T"
  +:+ pad 2 (secs / 3600) +:+ ":" +:+ pad 2 (secs / 60 mod 60) +:+ ":" +:+ pad 2 (secs mod 60)
  +:+ (if (frac =? 0)%Z then EmptyString
       else if (frac mod 1000 =? 0)%Z then "." +:+ pad 6 (frac / 1000)
       else "." +:+ pad 9 frac).

Definition coerce_object (c : option pyobj) : option Timestamp :=
  match c with
  | Some (OTime t) => Some t
  | Some (OStr s) => parse_iso_date s
  | Some (ONum x) => Some (Qfloor (to_Q x))
  | None => None
  end.

Definition coerce (s : Series) : list (option Timestamp) :=
  match s with
  | Numeric _ xs => map (option_map (fun x => Qfloor (to_Q x))) xs
  | Datetime xs => xs
  | Object xs => map coerce_object xs
  end.

(** a fraction, as [numerator/denominator] *)
Definition str_Q (x : Q) : string :=
  let r := Qred x in
  str_Z (Qnum r) +:+ "/" +:+ str_Z (Z.pos (Qden r)).

Definition digit_char (d : Z) : ascii :=
  match d with
  | 0 => "0" | 1 => "1" | 2 => "2" | 3 => "3" | 4 => "4"
  | 5 => "5" | 6 => "6" | 7 => "7" | 8 => "8" | _ => "9"
  end%Z%char.

(** two decimals, halves rounded up *)
Definition two_decimals (x : xfloat) : string :=
  match x with
  | XFinite q =>
      let c := Qfloor (q * 100 + (1 # 2)) in
      let a := Z.abs c in
      (if (c <? 0)%Z then "-" else EmptyString) +:+ str_Z (a / 100) +:+ "."
      +:+ String (digit_char (a mod 100 / 10)) (String (digit_char (a mod 10)) EmptyString)
  | XInf neg => if neg then "-inf" else "inf"
  | XNaN => "nan"
  end.

(** the sum and the mean without rounding *)
Definition exact_sum (s : Series) : xfloat := XFinite (Qsum (present s)).

Definition exact_mean (s : Series) : xfloat :=
  XFinite (Qsum (present s) / inject_Z (Z.of_nat (length (present s)))).

Fixpoint join (sep : string) (items : list string) : string :=
  match items with
  | [] => EmptyString
  | [x] => x
  | x :: rest => x +:+ sep +:+ join sep rest
  end.

Definition stats_csv (rows : list ColumnStat) : string :=
  join_lines ("sheet,column,dtype,non_null,nulls,unique" ::
    map (fun r => join "," [cs_sheet r; cs_column r; cs_dtype r;
                            str_nat (cs_non_null r); str_nat (cs_nulls r);
                            str_nat (cs_unique r)]) rows).

Definition rows_csv (rows : list BenfordRow) : string :=
  join_lines (map (fun r => join "," ([br_sheet r; br_column r;
                                       str_nat (br_total_values r); str_Q (br_chi_square r)]
                                      ++ map (fun kv => str_Q (snd kv)) (br_digit_pct r))) rows).

Definition quoted (s : string) : string :=
  String (ascii_of_nat 34) s +:+ String (ascii_of_nat 34) EmptyString.

Definition summary_json (s : Summary) : string :=
  "{" +:+ quoted "workbook" +:+ ": " +:+ quoted (workbook s) +:+ ", "
  +:+ quoted "sheet_count" +:+ ": " +:+ str_nat (sheet_count s) +:+ ", "
  +:+ quoted "sheets" +:+ ": [" +:+ join ", " (map (fun sh => quoted (sheet sh)) (sheets s))
  +:+ "]}".

Definition describe (df : DataFrame) : result string :=
  match df_columns df with
  | [] => Raise ValueError
  | cols => Ok (join "," (map fst cols))
  end.

(** *** Sample data *)

Definition cell (neg : bool) (m : positive) (e : Z) : option pyfloat := Some (FNum neg m e).

(** [100, 200] and [-100, -200] *)
Definition hundreds : Series := Numeric Int64 [cell false 1 2; cell false 2 2].
Definition minus_hundreds : Series := Numeric Int64 [cell true 1 2; cell true 2 2].

(** ten amounts: 120.5, 1300, 0.045, -18, 19.99, 2500, 310, 0, 47, missing *)
Definition amounts : Series := Numeric Float64
  [cell false 1205 (-1); cell false 13 2; cell false 45 (-3); cell true 18 0;
   cell false 1999 (-2); cell false 25 2; cell false 31 1; Some (FZero false);
   cell false 47 0; None].

(** only zeros and a missing value *)
Definition zeros_only : Series := Numeric Float64 [Some (FZero false); None; Some (FZero true)].

(** numeric, every value missing *)
Definition all_missing : Series := Numeric Float64 [None; None].

(** text that looks like numbers *)
Definition numeric_text : Series := Object [Some (OStr "100"); Some (OStr "200")].

(** ten cells, eight of them dates *)
Definition dates : Series := Object
  [Some (OStr "2024-01-05"); Some (OStr "2024-01-06"); Some (OStr "2024-01-09");
   Some (OStr "n/a"); Some (OStr "2024-02-01"); Some (OStr "2024-02-02");
   None; Some (OStr "2024-02-14"); Some (OStr "2023-12-31"); Some (OStr "2024-03-01")].

(** ten cells, three of them dates *)
Definition mostly_text : Series := Object
  [Some (OStr "2024-01-05"); Some (OStr "opening"); Some (OStr "2024-01-09");
   Some (OStr "n/a"); Some (OStr "accrual"); Some (OStr "reversal");
   None; Some (OStr "2024-02-14"); Some (OStr "memo"); Some (OStr "void")].

(** a column without rows *)
Definition no_rows : Series := Object [].

(** a thousand values whose leading digits follow the table exactly *)
Definition benford_counts : list (positive * nat) :=
  [(1%positive, 301); (2%positive, 176); (3%positive, 125); (4%positive, 97);
   (5%positive, 79); (6%positive, 67); (7%positive, 58); (8%positive, 51);
   (9%positive, 46)]%nat.

Definition benford_sample : Series := Numeric Float64
  (concat (map (fun dn => repeat (cell false (fst dn) 0) (snd dn)) benford_counts)).

Definition journal_sheet : DataFrame := {|
  df_rows := 10;
  df_columns := [("date", dates); ("amount", amounts)];
|}.

Definition book : ExcelFile := {|
  sheet_names := ["JE"];
  parse := fun name => if String.eqb name "JE" then Ok journal_sheet else Raise ValueError;
|}.

Definition book_bytes : string := "PK:journal".

Definition open_book (data : string) : result ExcelFile :=
  if String.eqb data book_bytes then Ok book else Raise ValueError.

(** a file system that holds the workbook and nothing else *)
Definition disk : FS := {|
  dirs := ∅;
  files := {[ ["je.xlsx"] := book_bytes ]};
  journal := [];
|}.


Definition args : Args := {| input := ["je.xlsx"]; output := ["out"] |}.

Definition library : Library := {|
  log10 := log10_table;
  to_datetime := coerce;
  isoformat := iso;
  open_excel := open_book;
  describe_csv := describe;
  column_stats_csv := stats_csv;
  json_dumps := summary_json;
  benford_csv := rows_csv;
  format_2f := two_decimals;
  series_sum := exact_sum;
  series_mean := exact_mean;
|}.

(** the file system after a run of the script on [args] *)
Definition after (fs : FS) : FS := snd (main (L := library) args fs).

(** what the date analysis answers on [dates] *)
Definition date_range_of_dates : DateRangeInfo := {|
  dr_non_null := 8;
  dr_min := Some "2023-12-31T00:00:00";
  dr_max := Some "2024-03-01T00:00:00";
|}.

End Sample.

(* ===================================================================== *)
(** ** Further vocabulary *)
(* ===================================================================== *)

(** The values of a column that are neither missing nor zero. *)
Definition nonzero_values (s : Series) : list pyfloat :=
  List.filter (fun x => negb (fis_zero x)) (dropna (numeric_values s)).

(** The row that the column loop records for a column. *)
Definition column_stat (sheet_name : string) (col : string * Series) : ColumnStat := {|
  cs_sheet := sheet_name;
  cs_column := fst col;
  cs_dtype := dtype_name (snd col);
  cs_non_null := series_notna_sum (snd col);
  cs_nulls := series_isna_sum (snd col);
  cs_unique := nunique (snd col);
|}.

(** The rows of the column statistics of the sheets [sheets], each given
    with its name: one per column, sheet after sheet. *)
Definition column_stats_of (sheets : list (string * DataFrame)) : list ColumnStat :=
  flat_map (fun nd => map (column_stat (fst nd)) (df_columns (snd nd))) sheets.

(** The record of a sheet carries the shape of its table. *)
Definition describes (nd : string * DataFrame) (sh : SheetSummary) : Prop :=
  sheet sh = fst nd
  /\ row_count sh = df_rows (snd nd)
  /\ column_count sh = length (df_columns (snd nd))
  /\ columns sh = map fst (df_columns (snd nd)).

(** The column holds a value that is neither missing nor zero. *)
Definition benford_applies (s : Series) : bool :=
  match nonzero_values s with
  | [] => false
  | _ => true
  end.

(** A disk whose input file is not a workbook, and a disk on which the
    output path is taken by a file. *)
Definition text_disk : FS := {|
  dirs := ∅;
  files := {[ ["je.xlsx"] := "plain text" ]};
  journal := [];
|}.

Definition blocked_disk : FS := {|
  dirs := ∅;
  files := {[ ["je.xlsx"] := Sample.book_bytes; ["out"] := "a file" ]};
  journal := [];
|}.

(** The summary of the sample amounts. *)
Definition amounts_summary : NumericSummary := {|
  ns_non_null := 9;
  ns_mean := Sample.exact_mean Sample.amounts;
  ns_min := series_min Sample.amounts;
  ns_max := series_max Sample.amounts;
  ns_sum := Sample.exact_sum Sample.amounts;
|}.

(** Whether [m] succeeds, and with which answer, depends only on the
    directories of the file system, and [m] leaves the directories as they
    are. *)
Definition steady {A} (m : io A) : Prop :=
  forall fs1 fs2,
    dirs fs1 = dirs fs2 ->
    fst (m fs1) = fst (m fs2)
    /\ dirs (snd (m fs1)) = dirs fs1
    /\ dirs (snd (m fs2)) = dirs fs2.

(** The entry for the name [c] after the columns [cols], when each column
    with an analysis [f] overwrites what was there under its name. *)
Definition latest {V} (f : Series -> option V) (c : string)
    (cols : list (string * Series)) (start : option V) : option V :=
  fold_left (fun acc col =>
               if String.eqb c (fst col)
               then match f (snd col) with Some v => Some v | None => acc end
               else acc)
    cols start.

(** The line of the narrative that points at the Benford table. *)
Definition benford_pointer : string :=
  "See `benford_summary.csv` for per-column distributions and chi-square scores.".

(** What closes the narrative when it has the Benford section: the line
    that points at the table, and the empty line after it. *)
Definition benford_closing : string :=
  benford_pointer +:+ String "010" EmptyString.

(** The name holds no path separator, neither the slash nor the backslash
    (character 92). *)
Definition no_separator (name : string) : bool :=
  forallb (fun c => negb (Ascii.eqb c "/") && negb (Ascii.eqb c (ascii_of_nat 92)))
    (list_ascii_of_string name).

(** The name is one component of a path: it holds no separator and is
    neither empty nor one of the names [.] and [..], which stand for a
    directory itself and for its parent. *)
Definition component (name : string) : bool :=
  no_separator name
  && negb (String.eqb name EmptyString)
  && negb (String.eqb name ".")
  && negb (String.eqb name "..").

(** The path names an entry of the directory [dir]: it is [dir / name] for
    a name that is one component. *)
Definition directly_inside (dir p : Path) : Prop :=
  exists name, component name = true /\ p = joinpath dir name.

(** The text ends with [suffix]. *)
Definition ends_with (suffix text : string) : Prop :=
  exists before, text = before +:+ suffix.

(** The last character of a text. *)
Fixpoint last_char (s : string) : option ascii :=
  match s with
  | EmptyString => None
  | String c EmptyString => Some c
  | String _ rest => last_char rest
  end.

Section MoreVocabulary.

Context `{L : Library}.

(** If the file at [excel_path] opens as a workbook, no name of a sheet
    holds a path separator; Excel allows none in the name of a sheet. *)
Definition plain_sheets (excel_path : Path) (fs : FS) : Prop :=
  forall data wb,
    files fs !! excel_path = Some data -> open_excel data = Ok wb ->
    forallb no_separator (sheet_names wb) = true.

(** ["{:.2f}".format(x)] does not end in a full stop: it ends in a digit,
    or it is [nan] or [inf]. *)
Definition format_2f_no_final_stop : Prop :=
  forall x, last_char (format_2f x) <> Some "."%char.

(** The logarithm is positive where the Benford table needs it. *)
Definition log10_positive : Prop :=
  forall d, In d digit_range -> (0 < log10 (1 + 1 / of_int d))%Q.

(** The row of the Benford table of a column that qualifies. *)
Definition benford_row_for (sheet_name : string) (col : string * Series) : BenfordRow := {|
  br_sheet := sheet_name;
  br_column := fst col;
  br_total_values := length (tallied_digits (snd col));
  br_chi_square := Qsum (map (chi_term (snd col)) digit_range);
  br_digit_pct :=
    map (fun d => ("digit_" +:+ str_nat d +:+ "_pct",
                   (of_int (observed (snd col) d)
                    / of_int (length (tallied_digits (snd col))))%Q))
      digit_range;
|}.

(** The rows of the Benford table of the columns [cols] of a sheet, and of
    several sheets: one row per column that qualifies, in order. *)
Definition benford_rows_of (sheet_name : string) (cols : list (string * Series))
    : list BenfordRow :=
  map (benford_row_for sheet_name) (List.filter (fun col => benford_applies (snd col)) cols).

Definition benford_rows_all (sheets : list (string * DataFrame)) : list BenfordRow :=
  flat_map (fun nd => benford_rows_of (fst nd) (df_columns (snd nd))) sheets.

(** The writes of a report on the workbook [wb], read from the file named
    [input_name], into [output_dir]: the table of every sheet, the column
    statistics, the summary, the Benford table if it has a row, the
    narrative and the index. *)
Definition report_of (input_name : string) (output_dir : Path) (wb : ExcelFile)
    (w : list (Path * string)) : Prop :=
  exists dfs csvs shs,
    Forall2 (fun n df => parse wb n = Ok df) (sheet_names wb) dfs
    /\ Forall2 (fun df csv => describe_csv df = Ok csv) dfs csvs
    /\ Forall2 describes (combine (sheet_names wb) dfs) shs
    /\ let summary := {|
         workbook := input_name;
         sheet_count := length (sheet_names wb);
         sheets := shs;
       |} in
       let rows := benford_rows_all (combine (sheet_names wb) dfs) in
       w = combine (map (describe_path output_dir) (sheet_names wb)) csvs
           ++ [(joinpath output_dir "column_stats.csv",
                column_stats_csv (column_stats_of (combine (sheet_names wb) dfs)));
               (joinpath output_dir "summary.json", json_dumps summary)]
           ++ match rows with
              | [] => []
              | _ => [(joinpath output_dir "benford_summary.csv", benford_csv rows)]
              end
           ++ [(joinpath output_dir "summary.md",
                join_lines (md_lines input_name summary rows));
               (joinpath output_dir "index.md", join_lines index_lines)].

(** The date range of a column, if it has one. *)
Definition date_range_of (s : Series) : option DateRangeInfo :=
  match detect_date_range s with
  | Ok out => out
  | Raise _ => None
  end.

End MoreVocabulary.

(** The path lies directly inside the directory [dir] and is not the index
    of the reports. *)
Definition report_path (dir : Path) (p : Path) : Prop :=
  (exists name, p = joinpath dir name) /\ p <> joinpath dir "index.md".

(** From [fs] to [fs'] no directory and no file is lost, no directory is
    made but [dir] and its ancestors, only files at paths with [P] change,
    and only such paths are written. *)
Definition confined (dir : Path) (P : Path -> Prop) (fs fs' : FS) : Prop :=
  (forall d, d ∈ dirs fs -> d ∈ dirs fs')
  /\ (forall d, d ∈ dirs fs' -> d ∈ dirs fs \/ In d (prefixes dir))
  /\ (forall p, ~ P p -> files fs' !! p = files fs !! p)
  /\ (forall p, is_Some (files fs !! p) -> is_Some (files fs' !! p))
  /\ exists w, journal fs' = journal fs ++ w /\ forall p, In p (map fst w) -> P p.

(** [m] takes every file system to one related by [R], whether it returns
    or raises; and [m] does so when it raises. *)
Definition always {A} (R : FS -> FS -> Prop) (m : io A) : Prop :=
  forall fs, R fs (snd (m fs)).

Definition fails {A} (R : FS -> FS -> Prop) (m : io A) : Prop :=
  forall fs e fs', m fs = (Raise e, fs') -> R fs fs'.

(** A disk on which the path of [summary.json] is taken by a directory,
    next to the index of an earlier run. *)
Definition jammed_disk : FS := {|
  dirs := {[ ["out"]; ["out"; "summary.json"] ]};
  files := {[ ["je.xlsx"] := Sample.book_bytes; ["out"; "index.md"] := "stale" ]};
  journal := [];
|}.
(* ===================================================================== *)
(** ** Leading digits *)
(* ===================================================================== *)

Section LeadingDigit.

Lemma nzhead_shape (d : Decimal.uint) :
  match Decimal.nzhead d with Decimal.D0 _ => False | _ => True end.
Proof. induction d; simpl; auto. Qed.

Lemma to_uint_unorm (m : positive) : Decimal.unorm (Pos.to_uint m) = Pos.to_uint m.
Proof.
  pose proof (DecimalPos.Unsigned.to_of (Pos.to_uint m)) as H.
  rewrite DecimalPos.Unsigned.of_to in H. simpl in H. congruence.
Qed.

Lemma digits_of_head (m : positive) :
  exists c rest, digits_of m = String c rest /\ nonzero_digit c.
Proof.
  unfold digits_of.
  pose proof (to_uint_unorm m) as Hn.
  pose proof (Unsigned.to_uint_nonzero m) as Hz.
  pose proof (nzhead_shape (Pos.to_uint m)) as Hs.
  unfold Decimal.unorm in Hn.
  destruct (Decimal.nzhead (Pos.to_uint m)) eqn:E; try contradiction;
    try congruence; rewrite <- Hn; simpl; eexists _, _; (split; [reflexivity|]).
  all: unfold nonzero_digit; vm_compute; lia.
Qed.

Lemma mem_char_nonzero_digit (c : ascii) :
  nonzero_digit c -> mem_char c "0." = false.
Proof.
  unfold nonzero_digit. intros H. simpl.
  destruct (Ascii.eqb_spec c "0") as [->|_]; [vm_compute in H; lia|].
  destruct (Ascii.eqb_spec c ".") as [->|_]; [vm_compute in H; lia|].
  reflexivity.
Qed.

Lemma lstrip_head (c : ascii) (rest : string) :
  nonzero_digit c -> lstrip "0." (String c rest) = String c rest.
Proof. intros H. cbn [lstrip]. now rewrite mem_char_nonzero_digit. Qed.

Lemma lstrip_zeros (k : nat) (s : string) :
  lstrip "0." (zeros k +:+ s) = lstrip "0." s.
Proof. induction k; simpl; auto. Qed.

Lemma first_digit_range (m : positive) : (1 <= first_digit m <= 9)%nat.
Proof.
  unfold first_digit. destruct (digits_of_head m) as (c & rest & -> & Hc).
  unfold nonzero_digit in Hc. lia.
Qed.

Lemma append_nil_l (s : string) : EmptyString +:+ s = s.
Proof. reflexivity. Qed.

Lemma append_cons (c : ascii) (s t : string) : String c s +:+ t = String c (s +:+ t).
Proof. reflexivity. Qed.

Lemma lstrip_str_positive (m : positive) (e : Z) :
  exists c rest, lstrip "0." (str (FNum false m e)) = String c rest
                 /\ nonzero_digit c /\ first_digit m = (nat_of_ascii c - 48)%nat.
Proof.
  unfold str, first_digit. destruct (digits_of_head m) as (c & rest & Hd & Hc).
  rewrite Hd. unfold sign_prefix. rewrite append_nil_l.
  set (n := Z.of_nat (String.length (String c rest))).
  assert (Hn : (1 <= n)%Z) by (subst n; simpl; lia).
  destruct ((n + e <=? -4)%Z || (16 <? n + e)%Z).
  - destruct rest; rewrite ?append_cons, lstrip_head by assumption; eauto.
  - destruct (n + e <=? 0)%Z eqn:E1.
    + rewrite !append_cons, append_nil_l.
      cbn [lstrip mem_char]. simpl Ascii.eqb. cbv iota.
      rewrite lstrip_zeros, lstrip_head by assumption. eauto.
    + destruct (n <=? n + e)%Z eqn:E2.
      * rewrite append_cons, lstrip_head by assumption. eauto.
      * destruct (Z.to_nat (n + e)) eqn:E3.
        -- lia.
        -- cbn [substring]. rewrite append_cons, lstrip_head by assumption. eauto.
Qed.

Lemma int_of_nonzero_digit (c : ascii) :
  nonzero_digit c -> int_of_char c = Ok (nat_of_ascii c - 48)%nat.
Proof.
  unfold nonzero_digit, int_of_char. intros H.
  destruct (Nat.leb_spec 48 (nat_of_ascii c)); [|lia].
  destruct (Nat.leb_spec (nat_of_ascii c) 57); [|lia].
  reflexivity.
Qed.

(** The leading digit of a positive float is the first digit of its
    numeral: extraction never raises. *)
Lemma leading_digit_of_positive (m : positive) (e : Z) :
  leading_digit_of (FNum false m e) = Ok (first_digit m).
Proof.
  unfold leading_digit_of.
  destruct (lstrip_str_positive m e) as (c & rest & -> & Hc & ->).
  simpl. now apply int_of_nonzero_digit.
Qed.


Lemma traverse_leading_digits (xs : list (option pyfloat)) :
  traverse leading_digit_of (List.filter fpos (map fabs (dropna xs)))
  = Ok (omap cell_digit xs).
Proof.
  induction xs as [|[[s|s m e]|] xs IH]; simpl; auto.
  rewrite leading_digit_of_positive. simpl. now rewrite IH.
Qed.

Lemma leading_digit_spec (s : Series) : leading_digit s = Ok (tallied_digits s).
Proof.
  unfold leading_digit, tallied_digits. destruct s as [dt xs|xs|xs]; simpl; auto.
  pose proof (traverse_leading_digits xs) as H.
  destruct (List.filter fpos (map fabs (dropna xs))); auto.
Qed.

Lemma tallied_digits_range (s : Series) :
  Forall (fun d => 1 <= d <= 9)%nat (tallied_digits s).
Proof.
  unfold tallied_digits. induction (numeric_values s) as [|[[?|? m ?]|] xs IH]; simpl; auto.
  constructor; auto. apply first_digit_range.
Qed.

End LeadingDigit.

(* ===================================================================== *)
(** ** Digit tallies *)
(* ===================================================================== *)

Section Tallies.

Lemma value_counts_lookup (ds : list nat) (d : nat) :
  default 0%nat (value_counts ds !! d) = count_occ Nat.eq_dec ds d.
Proof.
  induction ds as [|x ds IH]; simpl.
  - now rewrite lookup_empty.
  - destruct (Nat.eq_dec x d) as [->|Hne].
    + rewrite lookup_insert_eq. simpl. now rewrite IH.
    + rewrite lookup_insert_ne by assumption. exact IH.
Qed.

Lemma reindex_value_counts (ds : list nat) :
  reindex (value_counts ds) = map (fun d => (d, count_occ Nat.eq_dec ds d)) digit_range.
Proof.
  unfold reindex. apply map_ext. intros d. now rewrite value_counts_lookup.
Qed.

Lemma sum_counts_map (f : nat -> nat) (l : list nat) :
  sum_counts (map (fun d => (d, f d)) l) = list_sum (map f l).
Proof. induction l; simpl; auto. Qed.

Lemma list_sum_count_occ_cons (x : nat) (ds l : list nat) :
  list_sum (map (count_occ Nat.eq_dec (x :: ds)) l)
  = (count_occ Nat.eq_dec l x + list_sum (map (count_occ Nat.eq_dec ds) l))%nat.
Proof.
  induction l as [|y l IH]; [reflexivity|].
  cbn [map]. change (list_sum (?a :: ?t)) with (a + list_sum t)%nat.
  rewrite IH. cbn [count_occ].
  destruct (Nat.eq_dec x y), (Nat.eq_dec y x); try congruence; lia.
Qed.

Lemma count_occ_digit_range (d : nat) :
  (1 <= d <= 9)%nat -> count_occ Nat.eq_dec digit_range d = 1%nat.
Proof.
  intros Hd. assert (Hc : In d [1;2;3;4;5;6;7;8;9]%nat) by (simpl; lia).
  simpl in Hc. decompose [or] Hc; subst; try reflexivity; contradiction.
Qed.

(** Every tallied digit falls in one of the nine cells of the reindexed
    counts: their sum is the number of tallied values. *)
Lemma sum_counts_tallied (ds : list nat) :
  Forall (fun d => 1 <= d <= 9)%nat ds ->
  sum_counts (reindex (value_counts ds)) = length ds.
Proof.
  intros Hr. rewrite reindex_value_counts, sum_counts_map.
  induction Hr as [|x ds Hx _ IH]; simpl length.
  - reflexivity.
  - rewrite list_sum_count_occ_cons, IH, count_occ_digit_range by assumption. lia.
Qed.


Context `{L : Library}.

Lemma traverse_expected_counts (tot : nat) :
  traverse (fun digit => p ← getitem benford_expected digit; Ok (digit, (p * of_int tot)%Q))
    digit_range
  = Ok (map (fun d => (d, expected_count tot d)) digit_range).
Proof. reflexivity. Qed.

Lemma chi_terms_map (f : nat -> nat) (g : nat -> Q) (l : list nat) :
  map snd (chi_terms (map (fun d => (d, f d)) l) (map (fun d => (d, g d)) l))
  = map (fun d => ((of_int (f d) - g d) ^ 2 / g d)%Q) l.
Proof.
  unfold chi_terms, series_zip. induction l as [|d l IH]; [reflexivity|].
  cbn [map combine fst snd]. now rewrite IH.
Qed.

Lemma benford_summary_spec (s : Series) :
  benford_summary s
  = Ok (match tallied_digits s with [] => None | _ => Some (benford_of s) end).
Proof.
  unfold benford_summary. rewrite leading_digit_spec. cbn [mbind result_bind].
  destruct (tallied_digits s) as [|d0 ds] eqn:E; [reflexivity|].
  rewrite sum_counts_tallied by (rewrite <- E; apply tallied_digits_range).
  rewrite traverse_expected_counts. cbn [mbind result_bind].
  rewrite reindex_value_counts, chi_terms_map.
  unfold benford_of, chi_term, observed. rewrite E.
  replace (0 <? length (d0 :: ds))%nat with true by (symmetry; apply Nat.ltb_lt; simpl; lia).
  rewrite map_map. reflexivity.
Qed.

End Tallies.

(* ===================================================================== *)
(** ** Benford analysis: chi-square, percentages, sign *)
(* ===================================================================== *)

Section Benford.

Context `{L : Library}.

Lemma benford_summary_emitted (s : Series) (r : BenfordResult) :
  benford_summary s = Ok (Some r) -> r = benford_of s /\ tallied_digits s <> [].
Proof.
  rewrite benford_summary_spec. destruct (tallied_digits s) eqn:E; [discriminate|].
  intros [= <-]. split; [reflexivity | discriminate].
Qed.

Lemma Qsum_zero (f : nat -> Q) (l : list nat) :
  (forall d, In d l -> f d == 0)%Q -> (Qsum (map f l) == 0)%Q.
Proof.
  induction l as [|d l IH]; intros Hz; simpl.
  - reflexivity.
  - rewrite (Hz d) by (now left). rewrite IH by (intros; apply Hz; now right).
    reflexivity.
Qed.

Lemma chi_term_match (x e : Q) : (x == e -> (x - e) ^ 2 / e == 0)%Q.
Proof.
  intros Hx. assert (H0 : (x - e == 0)%Q) by (rewrite Hx; ring).
  unfold Qdiv. rewrite H0. simpl. ring.
Qed.

(** C1. When the Benford analysis of a column is emitted, its chi-square
    statistic is the sum over the digits 1..9 of
    (observed - expected)^2 / expected, where the observed count of a digit
    is the number of tallied values that lead with it (the reported count),
    the expected count is log10(1 + 1/d) times the total tallied count, and
    that total is the number of tallied values, the digits that
    [leading_digit] extracts.  In particular the chi-square is 0 when every
    observed count equals its expected count. *)
Theorem benford_chi_square (s : Series) (r : BenfordResult) :
  benford_summary s = Ok (Some r) ->
  let expected d := (log10 (1 + 1 / of_int d) * of_int (total r))%Q in
  leading_digit s = Ok (tallied_digits s)
  /\ total r = length (tallied_digits s)
  /\ counts r = map (fun d => (d, observed s d)) digit_range
  /\ chi_square r
     = Qsum (map (fun d => ((of_int (observed s d) - expected d) ^ 2 / expected d)%Q)
               digit_range)
  /\ ((forall d, In d digit_range -> (of_int (observed s d) == expected d)%Q)
      -> (chi_square r == 0)%Q).
Proof.
  intros Hr expected. apply benford_summary_emitted in Hr as [-> _].
  split; [apply leading_digit_spec|]. repeat split.
  intros Hm. cbn [chi_square benford_of]. apply Qsum_zero. intros d Hd.
  unfold chi_term, expected_count. apply chi_term_match. now apply Hm.
Qed.

(** The name of the percentage column of digit [d] in the Benford table. *)
Lemma benford_row_of (sheet_name column : string) (s : Series) :
  benford_row sheet_name column (benford_of s)
  = Ok {|
      br_sheet := sheet_name;
      br_column := column;
      br_total_values := length (tallied_digits s);
      br_chi_square := Qsum (map (chi_term s) digit_range);
      br_digit_pct :=
        map (fun d => ("digit_" +:+ str_nat d +:+ "_pct",
                       (of_int (observed s d) / of_int (length (tallied_digits s)))%Q))
          digit_range;
    |}.
Proof. reflexivity. Qed.

(** C3, as the code has it. For every emitted Benford result and every
    digit d in 1..9, the reported per-digit percentage is the fraction
    (observed count of d) / (total tallied count), a number between 0 and 1
    that is not multiplied by 100; the Benford table carries the same
    fraction in its column [digit_<d>_pct]. *)
Theorem benford_percentages (s : Series) (r : BenfordResult) (d : nat) :
  benford_summary s = Ok (Some r) ->
  In d digit_range ->
  let fraction := (of_int (observed s d) / of_int (total r))%Q in
  getitem (percentages r) d = Ok fraction
  /\ (0 <= fraction <= 1)%Q
  /\ forall sheet_name column, exists row,
       benford_row sheet_name column r = Ok row
       /\ dict_get ("digit_" +:+ str_nat d +:+ "_pct") (br_digit_pct row) = Some fraction.
Proof.
  intros Hr Hd fraction. apply benford_summary_emitted in Hr as [-> Hne].
  subst fraction. cbn [total benford_of].
  split; [|split].
  - simpl in Hd. decompose [or] Hd; subst; try contradiction; reflexivity.
  - assert (Hle : (observed s d <= length (tallied_digits s))%nat)
      by apply count_occ_bound.
    assert (Hpos : (0 < length (tallied_digits s))%nat)
      by (destruct (tallied_digits s); [congruence | simpl; lia]).
    unfold of_int. split.
    + apply Qle_shift_div_l; [unfold Qlt; simpl; lia | unfold Qle; simpl; lia].
    + apply Qle_shift_div_r; [unfold Qlt; simpl; lia | unfold Qle; simpl; lia].
  - intros sheet_name column. eexists. split; [apply benford_row_of|].
    cbn [br_digit_pct].
    simpl in Hd. decompose [or] Hd; subst; try contradiction; reflexivity.
Qed.

Lemma cell_digit_neg (c : option pyfloat) :
  cell_digit (option_map fneg c) = cell_digit c.
Proof. destruct c as [[?|? ? ?]|]; reflexivity. Qed.

Lemma omap_step {A B} (f : A -> option B) (a : A) (t : list A) :
  omap f (a :: t) = match f a with Some y => y :: omap f t | None => omap f t end.
Proof. reflexivity. Qed.

Lemma tallied_digits_neg (s : Series) : tallied_digits (neg s) = tallied_digits s.
Proof.
  unfold tallied_digits. destruct s as [dt xs|xs|xs]; [|reflexivity..].
  cbn [neg numeric_values].
  induction xs as [|c xs IH]; [reflexivity|].
  cbn [map]. rewrite !omap_step, cell_digit_neg, IH. reflexivity.
Qed.

Lemma cell_digit_skipped (c : option pyfloat) : skipped c -> cell_digit c = None.
Proof. destruct c as [[?|? ? ?]|]; simpl; auto; discriminate. Qed.

Lemma tallied_digits_skip (dt : numeric_dtype) (xs ys : list (option pyfloat))
    (c : option pyfloat) :
  skipped c ->
  tallied_digits (Numeric dt (xs ++ c :: ys)) = tallied_digits (Numeric dt (xs ++ ys)).
Proof.
  intros Hc. unfold tallied_digits. cbn [numeric_values].
  rewrite !omap_app, omap_step. now rewrite (cell_digit_skipped c Hc).
Qed.

(** C5. Benford tallying does not see the sign: negating every value of a
    column leaves the extracted digits, the per-digit tallies and the whole
    Benford result unchanged; a zero or a missing value, wherever it stands
    in the column, adds nothing to the tally; and [-100, -200] and
    [100, 200] give the same digits, 1 and 2. *)
Theorem leading_digit_sign_invariant (s : Series) :
  leading_digit (neg s) = leading_digit s
  /\ (forall d, observed (neg s) d = observed s d)
  /\ benford_summary (neg s) = benford_summary s
  /\ (forall dt xs ys c, s = Numeric dt (xs ++ c :: ys) -> skipped c ->
        leading_digit s = leading_digit (Numeric dt (xs ++ ys)))
  /\ leading_digit Sample.minus_hundreds = Ok [1; 2]%nat
  /\ leading_digit Sample.hundreds = Ok [1; 2]%nat.
Proof.
  repeat split.
  - now rewrite !leading_digit_spec, tallied_digits_neg.
  - intros d. unfold observed. now rewrite tallied_digits_neg.
  - rewrite !benford_summary_spec. unfold benford_of, chi_term, observed.
    now rewrite tallied_digits_neg.
  - intros dt xs ys c -> Hc. now rewrite !leading_digit_spec, tallied_digits_skip.
Qed.

End Benford.

(** The synthetic sample of a thousand values that follows the table of
    logarithms exactly has chi-square 0. *)
Lemma benford_chi_square_witness :
  benford_summary (L := Sample.library) Sample.benford_sample
    = Ok (Some (benford_of (L := Sample.library) Sample.benford_sample))
  /\ (chi_square (benford_of (L := Sample.library) Sample.benford_sample) == 0)%Q.
Proof.
  assert (He : benford_summary (L := Sample.library) Sample.benford_sample
               = Ok (Some (benford_of (L := Sample.library) Sample.benford_sample)))
    by (vm_compute; reflexivity).
  split; [exact He|].
  apply (benford_chi_square (L := Sample.library) _ _ He).
  intros d Hd. simpl in Hd.
  decompose [or] Hd; subst; try contradiction; vm_compute; reflexivity.
Defined.

Lemma benford_percentages_witness :
  benford_summary (L := Sample.library) Sample.hundreds
    = Ok (Some (benford_of (L := Sample.library) Sample.hundreds))
  /\ getitem (percentages (benford_of (L := Sample.library) Sample.hundreds)) 1
     = Ok (1 # 2)%Q.
Proof.
  assert (He : benford_summary (L := Sample.library) Sample.hundreds
               = Ok (Some (benford_of (L := Sample.library) Sample.hundreds)))
    by (vm_compute; reflexivity).
  split; [exact He|].
  apply (benford_percentages (L := Sample.library) _ _ 1%nat He). simpl. tauto.
Defined.

(** C3, as stated, fails: on the column [100, 200] the analysis is emitted
    and reports 1/2 for digit 1, not 100 * 1/2 = 50. *)
Lemma benford_percentage_not_hundredfold :
  ~ (forall (L : Library) (s : Series) (r : BenfordResult) (d : nat),
       benford_summary s = Ok (Some r) ->
       In d digit_range ->
       exists p, getitem (percentages r) d = Ok p
                 /\ (p == 100 * (of_int (observed s d) / of_int (total r)))%Q).
Proof.
  intros Hclaim.
  destruct (Hclaim Sample.library Sample.hundreds
              (benford_of (L := Sample.library) Sample.hundreds) 1%nat)
    as (p & Hp & Heq).
  - vm_compute. reflexivity.
  - simpl. tauto.
  - vm_compute in Hp. injection Hp as <-. vm_compute in Heq. discriminate.
Qed.

(** [-100, -200] against [100, 200], and a zero in the middle. *)
Lemma leading_digit_sign_invariant_witness :
  leading_digit (neg Sample.hundreds) = leading_digit Sample.hundreds
  /\ leading_digit (Numeric Int64 [Sample.cell false 1 2; Some (FZero false);
                                   Sample.cell false 2 2])
     = leading_digit Sample.hundreds.
Proof.
  destruct (leading_digit_sign_invariant (L := Sample.library) Sample.hundreds)
    as (Hneg & _).
  split; [exact Hneg|].
  destruct (leading_digit_sign_invariant (L := Sample.library)
              (Numeric Int64 [Sample.cell false 1 2; Some (FZero false);
                              Sample.cell false 2 2]))
    as (_ & _ & _ & Hskip & _).
  exact (Hskip Int64 [Sample.cell false 1 2] [Sample.cell false 2 2] (Some (FZero false))
           eq_refl eq_refl).
Defined.

(* ===================================================================== *)
(** ** Numeric summary *)
(* ===================================================================== *)

Section NumericSummary.

Context `{L : Library}.

Lemma length_dropna {A} (xs : list (option A)) : length (dropna xs) = notna_sum xs.
Proof.
  unfold dropna, notna_sum. induction xs as [|[a|] xs IH]; [reflexivity|..].
  - rewrite omap_step, filter_cons_True by (simpl; eauto). simpl. now rewrite IH.
  - rewrite omap_step, filter_cons_False by (simpl; intros []; discriminate). exact IH.
Qed.

Lemma length_present (s : Series) :
  is_numeric_dtype s = true -> length (present s) = series_notna_sum s.
Proof.
  destruct s; try discriminate. intros _. unfold present. cbn [numeric_values series_notna_sum].
  now rewrite length_map, length_dropna.
Qed.

Lemma notna_sum_all_missing {A} (xs : list (option A)) :
  Forall (fun c => c = None) xs -> notna_sum xs = 0%nat.
Proof.
  unfold notna_sum. induction 1 as [|c xs -> _ IH]; [reflexivity|].
  rewrite filter_cons_False by (intros []; discriminate). exact IH.
Qed.

Lemma Qmin_cases (x y : Q) : Qmin x y = x \/ Qmin x y = y.
Proof. unfold Qmin, GenericMinMax.gmin. destruct (x ?= y)%Q; auto. Qed.

Lemma Qmax_cases (x y : Q) : Qmax x y = x \/ Qmax x y = y.
Proof. unfold Qmax, GenericMinMax.gmax. destruct (x ?= y)%Q; auto. Qed.

Lemma fold_Qmin_in (rest : list Q) (x : Q) : In (fold_left Qmin rest x) (x :: rest).
Proof.
  revert x. induction rest as [|y rest IH]; intros x; simpl; auto.
  destruct (IH (Qmin x y)) as [Hx|Hr]; [|auto].
  rewrite <- Hx. destruct (Qmin_cases x y) as [-> | ->]; auto.
Qed.

Lemma fold_Qmax_in (rest : list Q) (x : Q) : In (fold_left Qmax rest x) (x :: rest).
Proof.
  revert x. induction rest as [|y rest IH]; intros x; simpl; auto.
  destruct (IH (Qmax x y)) as [Hx|Hr]; [|auto].
  rewrite <- Hx. destruct (Qmax_cases x y) as [-> | ->]; auto.
Qed.

Lemma fold_Qmin_le_init (rest : list Q) (x : Q) : (fold_left Qmin rest x <= x)%Q.
Proof.
  revert x. induction rest as [|y rest IH]; intros x; simpl.
  - apply Qle_refl.
  - eapply Qle_trans; [apply IH | apply Q.le_min_l].
Qed.

Lemma fold_Qmin_le (rest : list Q) (x z : Q) :
  In z (x :: rest) -> (fold_left Qmin rest x <= z)%Q.
Proof.
  revert x. induction rest as [|y rest IH]; intros x [<-|Hz]; simpl.
  - apply Qle_refl.
  - contradiction.
  - eapply Qle_trans; [apply fold_Qmin_le_init | apply Q.le_min_l].
  - destruct Hz as [<-|Hz].
    + eapply Qle_trans; [apply fold_Qmin_le_init | apply Q.le_min_r].
    + apply IH. now right.
Qed.

Lemma fold_Qmax_ge_init (rest : list Q) (x : Q) : (x <= fold_left Qmax rest x)%Q.
Proof.
  revert x. induction rest as [|y rest IH]; intros x; simpl.
  - apply Qle_refl.
  - eapply Qle_trans; [apply Q.le_max_l | apply IH].
Qed.

Lemma fold_Qmax_ge (rest : list Q) (x z : Q) :
  In z (x :: rest) -> (z <= fold_left Qmax rest x)%Q.
Proof.
  revert x. induction rest as [|y rest IH]; intros x [<-|Hz]; simpl.
  - apply Qle_refl.
  - contradiction.
  - eapply Qle_trans; [apply Q.le_max_l | apply fold_Qmax_ge_init].
  - destruct Hz as [<-|Hz].
    + eapply Qle_trans; [apply Q.le_max_r | apply fold_Qmax_ge_init].
    + apply IH. now right.
Qed.

(** C4. A numeric summary is emitted exactly when the column's element
    type is numeric and it has at least one non-null value.  When emitted it
    holds the non-null count, and as floats what pandas answers for the sum
    and for the mean of the column, and the least and the greatest non-null
    value.  The sum and the mean are the library's: an int64 sum wraps
    around and a float64 sum rounds, so they are tied to the column and to
    no arithmetic of its values.  No string is coerced to a number: an
    object column gets no summary, and a numeric column that is entirely
    missing gets none either. *)
Theorem numeric_summary_emitted_iff (s : Series) :
  (is_Some (numeric_summary s)
   <-> is_numeric_dtype s = true /\ (0 < series_notna_sum s)%nat)
  /\ (forall info, numeric_summary s = Some info ->
        ns_non_null info = series_notna_sum s
        /\ ns_sum info = series_sum s
        /\ ns_mean info = series_mean s
        /\ In (ns_min info) (present s)
        /\ In (ns_max info) (present s)
        /\ forall x, In x (present s) -> (ns_min info <= x <= ns_max info)%Q)
  /\ (forall xs, numeric_summary (Object xs) = None)
  /\ (forall dt xs, Forall (fun c => c = None) xs -> numeric_summary (Numeric dt xs) = None).
Proof.
  split; [|split; [|split]].
  - unfold numeric_summary. destruct (is_numeric_dtype s); cbn [negb].
    + destruct (Nat.eqb_spec (series_notna_sum s) 0) as [E|E].
      * split; [intros [? ?]; discriminate | intros [_ ?]; lia].
      * split; [intros _; split; [reflexivity | lia] | eauto].
    + split; [intros [? ?]; discriminate | intros [? _]; discriminate].
  - intros info. unfold numeric_summary.
    destruct (is_numeric_dtype s) eqn:En; cbn [negb]; [|discriminate].
    destruct (Nat.eqb_spec (series_notna_sum s) 0) as [E|E]; [discriminate|].
    intros [= <-]. cbn [ns_non_null ns_sum ns_mean ns_min ns_max].
    pose proof (length_present s En) as Hlen.
    unfold series_min, series_max.
    destruct (present s) as [|x rest] eqn:Ep; [simpl in Hlen; lia|].
    repeat split.
    + apply fold_Qmin_in.
    + apply fold_Qmax_in.
    + now apply fold_Qmin_le.
    + now apply fold_Qmax_ge.
  - reflexivity.
  - intros dt xs Hall. unfold numeric_summary. cbn [is_numeric_dtype negb series_notna_sum].
    now rewrite notna_sum_all_missing.
Qed.

End NumericSummary.

(** The summary of the sample amounts, of a column of missing values and of
    numbers written as text. *)
Example numeric_summary_amounts :
  option_map (fun i => (ns_non_null i, Qred (ns_min i), Qred (ns_max i)))
    (numeric_summary (L := Sample.library) Sample.amounts)
  = Some (9%nat, -18 # 1, 2500 # 1)%Q
  /\ numeric_summary (L := Sample.library) Sample.all_missing = None
  /\ numeric_summary (L := Sample.library) Sample.numeric_text = None.
Proof. repeat split. Qed.

(** The sample amounts are numeric with nine non-null values: a summary. *)
Lemma numeric_summary_emitted_iff_witness :
  is_Some (numeric_summary (L := Sample.library) Sample.amounts)
  /\ numeric_summary (L := Sample.library) (Numeric Float64 [None; None]) = None.
Proof.
  destruct (numeric_summary_emitted_iff (L := Sample.library) Sample.amounts)
    as ([_ Hemit] & _ & _ & Hmissing).
  split.
  - apply Hemit. split; [reflexivity | vm_compute; lia].
  - apply Hmissing. repeat constructor.
Defined.

(* ===================================================================== *)
(** ** Date ranges *)
(* ===================================================================== *)

Section DateRange.

Context `{L : Library}.

Lemma truediv_nonzero (a b : nat) :
  b <> 0%nat -> truediv a b = Ok (of_int a / of_int b)%Q.
Proof. intros Hb. unfold truediv. now destruct (Nat.eqb_spec b 0). Qed.

Lemma of_int_pos (n : nat) : (0 < n)%nat -> (0 < of_int n)%Q.
Proof. intros Hn. unfold of_int, Qlt. simpl. lia. Qed.

(** At least half, as a ratio and on the counts. *)
Lemma half_ratio (n m : nat) :
  (0 < m)%nat -> ((1 # 2 <= of_int n / of_int m)%Q <-> (m <= 2 * n)%nat).
Proof.
  intros Hm. pose proof (of_int_pos m Hm) as Hq. split; intros Hle.
  - assert (H2 : ((1 # 2) * of_int m <= of_int n)%Q).
    { apply Qle_trans with (of_int n / of_int m * of_int m)%Q.
      - apply Qmult_le_compat_r; [exact Hle | now apply Qlt_le_weak].
      - apply Qle_lteq. right. field. intros E. rewrite E in Hq. now apply Qlt_irrefl in Hq. }
    unfold of_int, Qle in H2. simpl in H2. lia.
  - apply Qle_shift_div_l; [exact Hq|]. unfold of_int, Qle. simpl. lia.
Qed.









(** [detect_date_range], branch by branch. *)
Lemma detect_date_range_spec (s : Series) :
  detect_date_range s
  = Ok (if (0 <? len s)%nat && (0 <? parsed_count s)%nat && (len s <=? 2 * parsed_count s)%nat
        then Some {|
               dr_non_null := parsed_count s;
               dr_min := Some (isoformat_nat (ts_min (parsed_dates s)));
               dr_max := Some (isoformat_nat (ts_max (parsed_dates s)));
             |}
        else None).
Proof.
  unfold detect_date_range, empty, parsed_count.
  destruct (Nat.eqb_spec (len s) 0) as [E0|E0].
  - rewrite E0. reflexivity.
  - replace (0 <? len s)%nat with true by (symmetry; apply Nat.ltb_lt; lia).
    destruct (Nat.eqb_spec (notna_sum (parsed_dates s)) 0) as [En|En].
    + rewrite En. reflexivity.
    + replace (0 <? notna_sum (parsed_dates s))%nat with true
        by (symmetry; apply Nat.ltb_lt; lia).
      rewrite truediv_nonzero by assumption. cbn [mbind result_bind andb].
      destruct (Qlt_le_dec _ _) as [Hlt|Hge].
      * destruct (Nat.leb_spec (len s) (2 * notna_sum (parsed_dates s))) as [Hle|_];
          [|reflexivity].
        apply half_ratio in Hle; [|lia]. exfalso. eapply Qlt_not_le; eassumption.
      * apply half_ratio in Hge; [|lia].
        destruct (Nat.leb_spec (len s) (2 * notna_sum (parsed_dates s))); [reflexivity | lia].
Qed.


Lemma notna_sum_cons {A} (c : option A) (xs : list (option A)) :
  notna_sum (c :: xs) = (match c with Some _ => 1 | None => 0 end + notna_sum xs)%nat.
Proof.
  unfold notna_sum. destruct c.
  - now rewrite filter_cons_True by (simpl; eauto).
  - now rewrite filter_cons_False by (intros [? ?]; discriminate).
Qed.

Lemma notna_sum_le_length {A} (xs : list (option A)) : (notna_sum xs <= length xs)%nat.
Proof.
  induction xs as [|c xs IH]; [reflexivity|].
  rewrite notna_sum_cons. destruct c; simpl; lia.
Qed.

Lemma series_notna_sum_le_len (s : Series) : (series_notna_sum s <= len s)%nat.
Proof. destruct s; simpl; apply notna_sum_le_length. Qed.

Lemma notna_sum_keeps_missing {A} (xs : list (option A)) (ps : list (option Timestamp)) :
  Forall2 (fun missing p => missing = true -> p = None)
    (map (fun c => bool_decide (c = None)) xs) ps ->
  (notna_sum ps <= notna_sum xs)%nat.
Proof.
  revert ps. induction xs as [|c xs IH]; intros ps Hf; inversion Hf; subst.
  - reflexivity.
  - rewrite !notna_sum_cons. match goal with Hr : Forall2 _ _ _ |- _ => apply IH in Hr end.
    destruct c as [a|].
    + destruct y; simpl; lia.
    + match goal with Hm : _ -> y = None |- _ => rewrite Hm by reflexivity end. simpl. lia.
Qed.

Lemma parsed_count_le_notna (s : Series) :
  keeps_missing -> (parsed_count s <= series_notna_sum s)%nat.
Proof.
  intros Hk. unfold parsed_count, parsed_dates.
  destruct (is_datetime64_any_dtype s) eqn:Ed.
  - destruct s; try discriminate. reflexivity.
  - specialize (Hk s). destruct s; cbn [isna series_notna_sum] in *;
      now apply notna_sum_keeps_missing.
Qed.

(** C6. A date range is present for a column only if the column is
    datetime-typed or at least half of its non-null values parse as dates,
    the ratio being taken over the non-null count.  The date parser is
    assumed to leave a missing cell missing. *)
Theorem date_range_needs_half_of_non_null (s : Series) (info : DateRangeInfo) :
  keeps_missing ->
  detect_date_range s = Ok (Some info) ->
  is_datetime64_any_dtype s = true
  \/ ((0 < series_notna_sum s)%nat
      /\ (1 # 2 <= of_int (parsed_count s) / of_int (series_notna_sum s))%Q).
Proof.
  intros Hk He. destruct (is_datetime64_any_dtype s) eqn:Ed; [now left | right].
  rewrite detect_date_range_spec in He.
  destruct (Nat.ltb_spec 0 (len s)) as [Hl|Hl]; cbn [andb] in He; [|discriminate].
  destruct (Nat.ltb_spec 0 (parsed_count s)) as [Hn|Hn]; cbn [andb] in He; [|discriminate].
  destruct (Nat.leb_spec (len s) (2 * parsed_count s)) as [Hh|Hh]; [|discriminate].
  pose proof (parsed_count_le_notna s Hk). pose proof (series_notna_sum_le_len s).
  split; [lia|]. apply half_ratio; lia.
Qed.

(** C10. Date-range detection on a column without rows returns nothing;
    the detection never raises, so the division of the parsed count by the
    column length never has a zero divisor; and on every column that passes
    the emptiness guard that division is defined. *)
Theorem detect_date_range_division_safe (s : Series) :
  (len s = 0%nat -> detect_date_range s = Ok None)
  /\ (exists out, detect_date_range s = Ok out)
  /\ detect_date_range s <> Raise ZeroDivisionError
  /\ (empty s = false ->
      truediv (parsed_count s) (len s) = Ok (of_int (parsed_count s) / of_int (len s))%Q).
Proof.
  split; [|split; [|split]].
  - intros E. rewrite detect_date_range_spec, E. reflexivity.
  - eexists. apply detect_date_range_spec.
  - rewrite detect_date_range_spec. discriminate.
  - unfold empty. intros E. apply truediv_nonzero.
    now destruct (Nat.eqb_spec (len s) 0).
Qed.

End DateRange.

Lemma sample_keeps_missing : keeps_missing (L := Sample.library).
Proof.
  intros [dt xs|xs|xs]; cbn [isna to_datetime Sample.library Sample.coerce].
  - induction xs as [|[x|] xs IH]; cbn [map]; constructor; auto; discriminate.
  - induction xs as [|[x|] xs IH]; cbn [map]; constructor; auto; discriminate.
  - induction xs as [|[x|] xs IH]; cbn [map]; constructor; auto; discriminate.
Qed.

(** Eight of the ten sample cells are dates, of nine that are not missing. *)
Lemma date_range_needs_half_of_non_null_witness :
  detect_date_range (L := Sample.library) Sample.dates = Ok (Some Sample.date_range_of_dates)
  /\ (is_datetime64_any_dtype Sample.dates = true
      \/ ((0 < series_notna_sum Sample.dates)%nat
          /\ (1 # 2 <= of_int (parsed_count (L := Sample.library) Sample.dates)
                       / of_int (series_notna_sum Sample.dates))%Q)).
Proof.
  assert (He : detect_date_range (L := Sample.library) Sample.dates
               = Ok (Some Sample.date_range_of_dates)) by (vm_compute; reflexivity).
  split; [exact He|].
  exact (date_range_needs_half_of_non_null (L := Sample.library) _ _
           sample_keeps_missing He).
Defined.

(** Three dates among ten values: no date range. *)
Example date_range_three_of_ten :
  parsed_count (L := Sample.library) Sample.mostly_text = 3%nat
  /\ len Sample.mostly_text = 10%nat
  /\ detect_date_range (L := Sample.library) Sample.mostly_text = Ok None
  /\ detect_date_range (L := Sample.library) Sample.no_rows = Ok None.
Proof. repeat split. Qed.


(** A column without rows, and the division on the sample dates. *)
Lemma detect_date_range_division_safe_witness :
  detect_date_range (L := Sample.library) Sample.no_rows = Ok None
  /\ truediv (parsed_count (L := Sample.library) Sample.dates) (len Sample.dates)
     = Ok (8 # 10)%Q.
Proof.
  destruct (detect_date_range_division_safe (L := Sample.library) Sample.no_rows)
    as (Hempty & _).
  split; [apply Hempty; reflexivity|].
  destruct (detect_date_range_division_safe (L := Sample.library) Sample.dates)
    as (_ & _ & _ & Hdiv).
  rewrite Hdiv by reflexivity. vm_compute. reflexivity.
Defined.

(* ===================================================================== *)
(** ** Effects: what a run writes *)
(* ===================================================================== *)

Section Effects.

Lemma commit_nil (fs : FS) : commit fs [] = fs.
Proof. destruct fs. unfold commit. simpl. now rewrite app_nil_r. Qed.

Lemma commit_app (fs : FS) (w1 w2 : list (Path * string)) :
  commit (commit fs w1) w2 = commit fs (w1 ++ w2).
Proof. unfold commit. simpl. now rewrite foldl_app, app_assoc. Qed.

Lemma bind_ok {A B} (m : io A) (f : A -> io B) (fs fs' : FS) (b : B) :
  (m ≫= f) fs = (Ok b, fs') ->
  exists a fs1, m fs = (Ok a, fs1) /\ f a fs1 = (Ok b, fs').
Proof.
  unfold mbind, io_bind. destruct (m fs) as [[a|e] fs1]; [eauto | discriminate].
Qed.

Lemma post_ret {A} (a : A) (Q : A -> list (Path * string) -> Prop) :
  Q a [] -> post (mret a) Q.
Proof.
  intros HQ fs a' fs' [= <- <-]. exists []. now rewrite commit_nil.
Qed.

Lemma post_lift {A} (r : result A) (Q : A -> list (Path * string) -> Prop) :
  (forall a, r = Ok a -> Q a []) -> post (lift r) Q.
Proof.
  intros HQ fs a fs' [= -> <-]. exists []. rewrite commit_nil. auto.
Qed.

Lemma post_write (p : Path) (data : string) (Q : unit -> list (Path * string) -> Prop) :
  Q tt [(p, data)] -> post (write_text p data) Q.
Proof.
  intros HQ fs [] fs'. unfold write_text.
  destruct (is_dir fs p); [discriminate|].
  destruct (is_dir fs (removelast p)); [|discriminate].
  intros [= <-]. exists [(p, data)]. split; [reflexivity | exact HQ].
Qed.

Lemma post_lift_eq {A} (r : result A) :
  post (lift r) (fun a w => r = Ok a /\ w = []).
Proof. apply post_lift. auto. Qed.

Lemma post_write_eq (p : Path) (data : string) :
  post (write_text p data) (fun _ w => w = [(p, data)]).
Proof. now apply post_write. Qed.

Lemma post_bind {A B} (m : io A) (f : A -> io B)
    (Q1 : A -> list (Path * string) -> Prop) (Q : B -> list (Path * string) -> Prop) :
  post m Q1 ->
  (forall a w1, Q1 a w1 -> post (f a) (fun b w2 => Q b (w1 ++ w2))) ->
  post (m ≫= f) Q.
Proof.
  intros Hm Hf fs b fs' Hrun.
  apply bind_ok in Hrun as (a & fs1 & Hrun1 & Hrun2).
  apply Hm in Hrun1 as (w1 & -> & HQ1).
  apply (Hf a w1 HQ1) in Hrun2 as (w2 & -> & HQ).
  exists (w1 ++ w2). now rewrite commit_app.
Qed.

Lemma post_weaken {A} (m : io A) (Q Q' : A -> list (Path * string) -> Prop) :
  post m Q -> (forall a w, Q a w -> Q' a w) -> post m Q'.
Proof.
  intros Hm Himp fs a fs' Hrun. apply Hm in Hrun as (w & -> & HQ). eauto.
Qed.

Lemma oblivious_ret {A} (a : A) : oblivious (mret a : io A).
Proof. exists (Some (a, [])). now apply post_ret. Qed.

Lemma oblivious_lift {A} (r : result A) : oblivious (lift r).
Proof.
  destruct r as [a|e].
  - exists (Some (a, [])). apply post_lift. now intros ? [= <-].
  - exists None. apply post_lift. discriminate.
Qed.

Lemma oblivious_write (p : Path) (data : string) : oblivious (write_text p data).
Proof. exists (Some (tt, [(p, data)])). now apply post_write. Qed.

Lemma oblivious_bind {A B} (m : io A) (f : A -> io B) :
  oblivious m -> (forall a, oblivious (f a)) -> oblivious (m ≫= f).
Proof.
  intros [[[a w1]|] Hm] Hf.
  - destruct (Hf a) as [[[b w2]|] Hfa].
    + exists (Some (b, w1 ++ w2)). eapply post_bind; [exact Hm|].
      intros a' w [= <- <-]. eapply post_weaken; [exact Hfa|].
      now intros b' w' [= <- <-].
    + exists None. eapply post_bind; [exact Hm|].
      intros a' w [= <- <-]. eapply post_weaken; [exact Hfa | discriminate].
  - exists None. eapply post_bind; [exact Hm | discriminate].
Qed.

Lemma oblivious_foldM {A S} (f : S -> A -> io S) (xs : list A) (s : S) :
  (forall s x, oblivious (f s x)) -> oblivious (foldM f xs s).
Proof.
  intros Hf. revert s. induction xs as [|x xs IH]; intros s; cbn [foldM].
  - apply oblivious_ret.
  - apply oblivious_bind; auto.
Qed.


Lemma lookup_commit_written (w : list (Path * string)) (m : gmap (list string) string)
    (p : Path) :
  In p (map fst w) \/ is_Some (m !! p) ->
  is_Some (foldl (fun m pc => <[fst pc := snd pc]> m) m w !! p).
Proof.
  revert m. induction w as [|[q c] w IH]; intros m Hp; simpl.
  - destruct Hp as [[]|Hp]; exact Hp.
  - apply IH. simpl in Hp. destruct (decide (p = q)) as [->|Hne].
    + right. rewrite lookup_insert_eq. eauto.
    + destruct Hp as [[Hq|Hin]|Hm]; [congruence | now left |].
      right. now rewrite lookup_insert_ne by congruence.
Qed.

Lemma mkdir_ok (p : Path) (fs fs' : FS) (u : unit) :
  mkdir p fs = (Ok u, fs') ->
  files fs' = files fs /\ journal fs' = journal fs
  /\ dirs fs' = dirs fs ∪ list_to_set (prefixes p).
Proof.
  unfold mkdir. destruct (existsb _ _); [discriminate|]. intros [= _ <-]. auto.
Qed.

Lemma read_bytes_ok (p : Path) (fs fs' : FS) (data : string) :
  read_bytes p fs = (Ok data, fs') -> fs' = fs /\ files fs !! p = Some data.
Proof.
  unfold read_bytes. destruct (files fs !! p); [|discriminate]. now intros [= <- <-].
Qed.

End Effects.

(* ===================================================================== *)
(** ** The report: rows, artifacts, exit status *)
(* ===================================================================== *)

Section ReportProperties.

Context `{L : Library}.

Lemma bind_result_ok {A B} (r : result A) (f : A -> result B) (b : B) :
  r ≫= f = Ok b -> exists a, r = Ok a /\ f a = Ok b.
Proof. destruct r as [a|e]; [eauto | discriminate]. Qed.

(** One column adds at most one row to the Benford table: one when its
    Benford analysis is emitted, none otherwise. *)
Lemma column_step_rows (sheet_name : string) (st st' : Tallies) (col : string * Series) :
  column_step sheet_name st col = Ok st' ->
  exists extra,
    t_benford_rows st' = t_benford_rows st ++ extra
    /\ (benford_summary (snd col) = Ok None -> extra = [])
    /\ (forall r, benford_summary (snd col) = Ok (Some r) -> extra <> []).
Proof.
  unfold column_step. intros Hs.
  apply bind_result_ok in Hs as (date_info & _ & Hs).
  apply bind_result_ok in Hs as (benford_info & Hb & Hs).
  apply bind_result_ok in Hs as (rows & Hrows & [= <-]).
  cbn [t_benford_rows]. rewrite Hb. destruct benford_info as [info|].
  - apply bind_result_ok in Hrows as (row & _ & [= <-]).
    exists [row]. repeat split; [discriminate | intros _ _; discriminate].
  - injection Hrows as <-. exists []. rewrite app_nil_r.
    repeat split. intros r; discriminate.
Qed.

Lemma column_loop_rows (sheet_name : string) (cols : list (string * Series))
    (st st' : Tallies) :
  fold_result (column_step sheet_name) cols st = Ok st' ->
  exists extra,
    t_benford_rows st' = t_benford_rows st ++ extra
    /\ ((exists col r, In col cols /\ benford_summary (snd col) = Ok (Some r))
        -> extra <> []).
Proof.
  revert st. induction cols as [|col cols IH]; intros st Hf; cbn [fold_result] in Hf.
  - injection Hf as <-. exists []. rewrite app_nil_r. split; [reflexivity|].
    intros (? & ? & [] & _).
  - apply bind_result_ok in Hf as (st1 & Hstep & Hrest).
    apply column_step_rows in Hstep as (e1 & He1 & _ & Hq1).
    apply IH in Hrest as (e2 & He2 & Hq2).
    exists (e1 ++ e2). rewrite He2, He1, app_assoc. split; [reflexivity|].
    intros (c & r & [<-|Hin] & Hb) Happ; apply app_eq_nil in Happ as [E1 E2].
    + exact (Hq1 r Hb E1).
    + apply Hq2; eauto.
Qed.

Lemma sheet_step_post (output_dir : Path) (wb : ExcelFile) (st : Progress)
    (sheet_name : string) :
  post (sheet_step output_dir wb st sheet_name)
    (fun st' w =>
       map fst w = [describe_path output_dir sheet_name]
       /\ exists extra,
            p_benford_rows st' = p_benford_rows st ++ extra
            /\ (sheet_qualifies wb sheet_name -> extra <> [])).
Proof.
  unfold sheet_step.
  eapply post_bind; [apply post_lift_eq|].
  cbv beta. intros df ? [Hdf ->].
  eapply post_bind; [apply post_lift_eq|].
  cbv beta. intros t ? [Ht ->].
  eapply post_bind; [apply post_lift_eq|].
  cbv beta. intros csv ? [_ ->].
  eapply post_bind; [apply post_write_eq|].
  cbv beta. intros [] ? ->. apply post_ret. cbn [app map fst p_benford_rows].
  split; [reflexivity|].
  apply column_loop_rows in Ht as (extra & He & Hq). cbn [t_benford_rows] in He.
  exists extra. split; [exact He|].
  intros (df' & col & r & Hdf' & Hin & Hb). rewrite Hdf in Hdf'. injection Hdf' as <-.
  apply Hq. eauto.
Qed.

Lemma sheet_loop_post (output_dir : Path) (wb : ExcelFile) (names : list string)
    (st : Progress) :
  post (foldM (sheet_step output_dir wb) names st)
    (fun st' w =>
       map fst w = map (describe_path output_dir) names
       /\ exists extra,
            p_benford_rows st' = p_benford_rows st ++ extra
            /\ ((exists n, In n names /\ sheet_qualifies wb n) -> extra <> [])).
Proof.
  revert st. induction names as [|n names IH]; intros st; cbn [foldM].
  - apply post_ret. split; [reflexivity|]. exists []. rewrite app_nil_r.
    split; [reflexivity|]. intros (? & [] & _).
  - eapply post_bind; [apply sheet_step_post|].
    cbv beta. intros st1 w1 (Hw1 & e1 & He1 & Hq1).
    eapply post_weaken; [apply IH|].
    cbv beta. intros st2 w2 (Hw2 & e2 & He2 & Hq2).
    split; [now rewrite map_app, Hw1, Hw2|].
    exists (e1 ++ e2). rewrite He2, He1, app_assoc. split; [reflexivity|].
    intros (m & [<-|Hin] & Hm) Happ; apply app_eq_nil in Happ as [E1 E2].
    + exact (Hq1 Hm E1).
    + apply Hq2; eauto.
Qed.

Ltac oblivious_steps :=
  repeat first
    [ apply oblivious_ret
    | apply oblivious_lift
    | apply oblivious_write
    | apply oblivious_foldM; intros; unfold sheet_step
    | apply oblivious_bind; [|intros]
    | match goal with
      | |- oblivious (match ?x with _ => _ end) => destruct x
      end ].

(** [build_summary] creates the output directory, reads the workbook, and
    from there on only computes and writes. *)
Lemma build_summary_factors (excel_path output_dir : Path) :
  exists k : string -> io unit,
    build_summary excel_path output_dir
      = (mkdir output_dir ≫= fun _ => read_bytes excel_path ≫= k)
    /\ (forall data, oblivious (k data))
    /\ (forall data, post (k data) (fun _ w => report_writes output_dir data w)).
Proof.
  unfold build_summary.
  lazymatch goal with
  | |- context [read_bytes excel_path ≫= ?K] => exists K
  end.
  split; [reflexivity|]. split; intros data.
  - oblivious_steps.
  - eapply post_bind; [apply post_lift_eq|].
    cbv beta. intros wb ? [Hwb ->].
    eapply post_bind; [apply sheet_loop_post|].
    cbv beta. intros st w1 (Hw1 & extra & He & Hq). cbn [app p_benford_rows] in He.
    eapply post_bind; [apply post_write_eq|].
    cbv beta. intros [] ? ->.
    eapply post_bind; [apply post_write_eq|].
    cbv beta. intros [] ? ->.
    eapply post_bind with
      (Q1 := fun _ w => w = match p_benford_rows st with
                            | [] => []
                            | rows => [(joinpath output_dir "benford_summary.csv",
                                        benford_csv rows)]
                            end).
    { destruct (p_benford_rows st); [now apply post_ret | apply post_write_eq]. }
    cbv beta. intros [] ? ->.
    eapply post_bind; [apply post_write_eq|].
    cbv beta. intros [] ? ->.
    eapply post_weaken; [apply post_write_eq|].
    cbv beta. intros [] ? ->.
    exists wb, (match p_benford_rows st with [] => false | _ => true end).
    split; [exact Hwb|]. split.
    + unfold artifacts. rewrite !map_app, Hw1.
      destruct (p_benford_rows st); reflexivity.
    + intros Hqual. rewrite He. destruct extra; [|reflexivity].
      now apply Hq in Hqual.
Qed.

Lemma path_exists_run (p : Path) (fs fs' : FS) (found : bool) :
  path_exists p fs = (Ok found, fs') ->
  fs' = fs /\ found = is_dir fs p || is_file fs p.
Proof. now intros [= <- <-]. Qed.

(** A successful run: the workbook bytes it read, the file system after
    the output directory is made, and the writes that follow. *)
Lemma main_runs (args : Args) :
  exists k : string -> io unit,
    (forall data, oblivious (k data))
    /\ (forall data, post (k data) (fun _ w => report_writes (output args) data w))
    /\ forall fs fs',
         main args fs = (Ok tt, fs') ->
         exists data fsm,
           is_dir fs (input args) || is_file fs (input args) = true
           /\ files fs !! input args = Some data
           /\ files fsm = files fs /\ journal fsm = journal fs
           /\ k data fsm = (Ok tt, fs').
Proof.
  destruct (build_summary_factors (input args) (output args)) as (k & Hk & Hobl & Hpost).
  exists k. split; [exact Hobl|]. split; [exact Hpost|].
  intros fs fs' Hrun. unfold main in Hrun.
  apply bind_ok in Hrun as (found & fs0 & Hex & Hrun).
  apply path_exists_run in Hex as [-> ->].
  destruct (is_dir fs (input args) || is_file fs (input args)) eqn:Efound;
    cbn [negb] in Hrun; [|discriminate].
  rewrite Hk in Hrun.
  apply bind_ok in Hrun as (u & fsm & Hmk & Hrun).
  apply bind_ok in Hrun as (data & fs1 & Hrd & Hrun).
  apply mkdir_ok in Hmk as (Hf & Hj & _).
  apply read_bytes_ok in Hrd as [-> Hdata].
  exists data, fsm. rewrite <- Hf. auto.
Qed.

(** C7. If the input path does not exist, [main] stops with
    [SystemExit] and its message: the exit status is not zero, the error
    stream carries the message, and the file system is exactly as before, so
    the output directory is not created and no file is written.  If [main]
    succeeds, the input existed, the exit status is 0, and the run has
    written every artifact of the workbook it read: each of them is a file
    afterwards, and the Benford table is among them as soon as a column
    qualified. *)
Theorem main_exit_behaviour (args : Args) (fs : FS) :
  (is_dir fs (input args) || is_file fs (input args) = false ->
     main args fs
       = (Raise (SystemExit ("Input file not found: " +:+ path_str (input args))), fs)
     /\ exit_status (fst (main args fs)) <> 0%nat
     /\ error_stream (fst (main args fs))
        = "Input file not found: " +:+ path_str (input args))
  /\ (forall fs',
        main args fs = (Ok tt, fs') ->
        exit_status (Ok tt) = 0%nat
        /\ is_dir fs (input args) || is_file fs (input args) = true
        /\ exists data wb with_benford w,
             files fs !! input args = Some data
             /\ open_excel data = Ok wb
             /\ journal fs' = journal fs ++ w
             /\ map fst w = artifacts (output args) wb with_benford
             /\ (qualifies wb -> with_benford = true)
             /\ forall p, In p (artifacts (output args) wb with_benford) ->
                  is_file fs' p = true).
Proof.
  split.
  - intros Hmissing.
    assert (Hrun : main args fs
              = (Raise (SystemExit ("Input file not found: " +:+ path_str (input args))), fs)).
    { unfold main, mbind, io_bind, path_exists. now rewrite Hmissing. }
    rewrite Hrun. repeat split. discriminate.
  - intros fs' Hrun. destruct (main_runs args) as (k & _ & Hpost & Hmain).
    destruct (Hmain _ _ Hrun) as (data & fsm & Hfound & Hdata & Hf & Hj & Hk).
    destruct (Hpost _ _ _ _ Hk) as (w & -> & wb & b & Hwb & Hw & Hq).
    split; [reflexivity|]. split; [exact Hfound|].
    exists data, wb, b, w. cbn [commit journal files]. rewrite Hj.
    repeat split; auto.
    intros p Hp. unfold is_file. cbn [files commit]. apply bool_decide_eq_true.
    apply lookup_commit_written. left. now rewrite Hw.
Qed.


Lemma dict_get_set {V} (k : string) (v : V) (d : list (string * V)) :
  dict_get k (dict_set k v d) = Some v.
Proof.
  induction d as [|[k' v'] d IH]; simpl.
  - now rewrite String.eqb_refl.
  - destruct (String.eqb k k') eqn:E; simpl; rewrite ?E, ?String.eqb_refl; auto.
Qed.

Lemma tallied_digits_skipped (dt : numeric_dtype) (xs : list (option pyfloat)) :
  Forall skipped xs -> tallied_digits (Numeric dt xs) = [].
Proof.
  unfold tallied_digits. cbn [numeric_values]. induction 1 as [|c xs Hc _ IH]; [reflexivity|].
  now rewrite omap_step, (cell_digit_skipped c Hc).
Qed.

(** C9. A numeric column with at least one non-null value, all of whose
    non-null values are zero, gets a numeric summary and no Benford result,
    and its step of the column loop records the summary and adds no row to
    the Benford table. *)
Theorem zero_column_summary_without_benford (sheet_name column : string)
    (dt : numeric_dtype) (xs : list (option pyfloat)) (st : Tallies) :
  (0 < notna_sum xs)%nat ->
  Forall skipped xs ->
  is_Some (numeric_summary (Numeric dt xs))
  /\ benford_summary (Numeric dt xs) = Ok None
  /\ exists st',
       column_step sheet_name st (column, Numeric dt xs) = Ok st'
       /\ t_benford_rows st' = t_benford_rows st
       /\ is_Some (dict_get column (t_numeric_summaries st')).
Proof.
  intros Hn Hz.
  assert (Hb : benford_summary (Numeric dt xs) = Ok None)
    by (rewrite benford_summary_spec, tallied_digits_skipped; auto).
  assert (Hs : exists info, numeric_summary (Numeric dt xs) = Some info).
  { unfold numeric_summary. cbn [is_numeric_dtype negb series_notna_sum].
    destruct (Nat.eqb_spec (notna_sum xs) 0); [lia | eauto]. }
  destruct Hs as [info Hs].
  split; [rewrite Hs; eauto|]. split; [exact Hb|].
  unfold column_step. cbn [fst snd]. rewrite detect_date_range_spec, Hb, Hs.
  cbn [mbind result_bind]. eexists. split; [reflexivity|].
  cbn [t_benford_rows t_numeric_summaries]. split; [reflexivity|].
  rewrite dict_get_set. eauto.
Qed.

End ReportProperties.

(** On the sample disk the run succeeds and leaves its six files; with an
    input path that does not exist nothing is touched. *)
Lemma main_exit_behaviour_witness :
  main (L := Sample.library) Sample.args Sample.disk = (Ok tt, Sample.after Sample.disk)
  /\ map fst (journal (Sample.after Sample.disk))
     = [["out"; "describe_JE.csv"]; ["out"; "column_stats.csv"]; ["out"; "summary.json"];
        ["out"; "benford_summary.csv"]; ["out"; "summary.md"]; ["out"; "index.md"]]
  /\ is_dir Sample.disk (input Sample.args) || is_file Sample.disk (input Sample.args) = true
  /\ main (L := Sample.library) {| input := ["missing.xlsx"]; output := ["out"] |} Sample.disk
     = (Raise (SystemExit "Input file not found: missing.xlsx"), Sample.disk).
Proof.
  assert (Hrun : main (L := Sample.library) Sample.args Sample.disk
                 = (Ok tt, Sample.after Sample.disk)) by (vm_compute; reflexivity).
  split; [exact Hrun|]. split; [vm_compute; reflexivity|].
  destruct (main_exit_behaviour (L := Sample.library) Sample.args Sample.disk)
    as [_ Hok].
  destruct (Hok _ Hrun) as (_ & Hfound & _).
  split; [exact Hfound|].
  destruct (main_exit_behaviour (L := Sample.library)
              {| input := ["missing.xlsx"]; output := ["out"] |} Sample.disk)
    as [Hmissing _].
  apply Hmissing. vm_compute. reflexivity.
Defined.


(** A column of zeros and a missing value. *)
Lemma zero_column_summary_without_benford_witness :
  (0 < notna_sum [Some (FZero false); None; Some (FZero true)])%nat
  /\ Forall skipped [Some (FZero false); None; Some (FZero true)]
  /\ is_Some (numeric_summary (L := Sample.library) Sample.zeros_only)
  /\ benford_summary (L := Sample.library) Sample.zeros_only = Ok None.
Proof.
  assert (Hn : (0 < notna_sum [Some (FZero false); None; Some (FZero true)])%nat)
    by (vm_compute; lia).
  assert (Hz : Forall skipped [Some (FZero false); None; Some (FZero true)])
    by (repeat constructor).
  split; [exact Hn|]. split; [exact Hz|].
  destruct (zero_column_summary_without_benford (L := Sample.library) "JE" "balance"
              Float64 _ {| t_date_ranges := []; t_numeric_summaries := [];
                           t_column_rows := []; t_benford_rows := [] |} Hn Hz)
    as (Hs & Hb & _).
  split; [exact Hs | exact Hb].
Defined.

(* ===================================================================== *)
(** ** Further properties of the analyses *)
(* ===================================================================== *)

Section AnalysesMore.

Context `{L : Library}.

Lemma tallied_digits_nonzero (s : Series) :
  length (tallied_digits s) = length (nonzero_values s).
Proof.
  unfold tallied_digits, nonzero_values, dropna.
  induction (numeric_values s) as [|[[sg|sg m e]|] xs IH]; [reflexivity|..];
    rewrite !omap_step; simpl; auto.
Qed.

Lemma tallied_digits_not_numeric (s : Series) :
  is_numeric_dtype s = false -> tallied_digits s = [].
Proof. destruct s; [discriminate|reflexivity..]. Qed.

(** X1. [leading_digit] never raises on a column of finite floats and
    missing values: it returns one digit for each value that is neither
    missing nor zero, every digit lies in 1..9, and a column that is not
    numeric gives no digit. *)
Theorem leading_digit_never_raises (s : Series) :
  exists digits,
    leading_digit s = Ok digits
    /\ Forall (fun d => 1 <= d <= 9)%nat digits
    /\ length digits = length (nonzero_values s)
    /\ (is_numeric_dtype s = false -> digits = []).
Proof.
  exists (tallied_digits s). split; [apply leading_digit_spec|].
  split; [apply tallied_digits_range|].
  split; [apply tallied_digits_nonzero | apply tallied_digits_not_numeric].
Qed.

(** X2. The digit read off the decimal string does not depend on the
    magnitude or the sign of the value: the same significant digits with any
    two exponents, printed in fixed or in scientific notation, give the same
    leading digit, between 1 and 9. *)
Theorem leading_digit_of_any_exponent (neg neg' : bool) (m : positive) (e e' : Z) :
  leading_digit_of (fabs (FNum neg m e)) = leading_digit_of (fabs (FNum neg' m e'))
  /\ exists d, leading_digit_of (fabs (FNum neg m e)) = Ok d /\ (1 <= d <= 9)%nat.
Proof.
  cbn [fabs]. rewrite !leading_digit_of_positive. split; [reflexivity|].
  exists (first_digit m). split; [reflexivity | apply first_digit_range].
Qed.

Lemma tallied_digits_nonempty (s : Series) :
  tallied_digits s <> []
  <-> is_numeric_dtype s = true
      /\ exists x, In (Some x) (numeric_values s) /\ fis_zero x = false.
Proof.
  unfold tallied_digits. destruct s as [dt xs|xs|xs]; cbn [numeric_values is_numeric_dtype].
  - induction xs as [|c xs IH].
    { split; [intros Hne; now contradiction Hne | intros [_ (? & [] & _)]]. }
    rewrite omap_step. destruct c as [[sg|sg m e]|]; cbn [cell_digit].
    + rewrite IH. split; intros [_ (x & Hx & Hz)]; (split; [reflexivity|]).
      * exists x. split; [now right | exact Hz].
      * destruct Hx as [[= <-]|Hx]; [discriminate | eauto].
    + split; [intros _ | discriminate]. split; [reflexivity|].
      exists (FNum sg m e). split; [now left | reflexivity].
    + rewrite IH. split; intros [_ (x & Hx & Hz)]; (split; [reflexivity|]).
      * exists x. split; [now right | exact Hz].
      * destruct Hx as [[=]|Hx]. eauto.
  - split; [intros Hne; now contradiction Hne | intros [? _]; discriminate].
  - split; [intros Hne; now contradiction Hne | intros [? _]; discriminate].
Qed.

(** X3. On a column of finite floats and missing values
    [benford_summary] never raises, and it emits a result exactly for a
    numeric column that holds at least one value that is neither missing nor
    zero. *)
Theorem benford_summary_applies_iff (s : Series) :
  exists out,
    benford_summary s = Ok out
    /\ (is_Some out
        <-> is_numeric_dtype s = true
            /\ exists x, In (Some x) (numeric_values s) /\ fis_zero x = false).
Proof.
  eexists. split; [apply benford_summary_spec|].
  rewrite <- tallied_digits_nonempty.
  destruct (tallied_digits s); split; try congruence; eauto.
  intros [? ?]; discriminate.
Qed.

Lemma observed_sum (s : Series) :
  list_sum (map (fun d => observed s d) digit_range) = length (tallied_digits s).
Proof.
  pose proof (sum_counts_tallied (tallied_digits s) (tallied_digits_range s)) as H.
  rewrite reindex_value_counts, sum_counts_map in H. exact H.
Qed.

(** X4. In an emitted Benford result the nine counts add up to the total,
    which is the number of values that are neither missing nor zero and is
    at least 1, and no count exceeds the total. *)
Theorem benford_counts_add_up (s : Series) (r : BenfordResult) :
  benford_summary s = Ok (Some r) ->
  sum_counts (counts r) = total r
  /\ total r = length (nonzero_values s)
  /\ (1 <= total r)%nat
  /\ (forall d c, In (d, c) (counts r) -> (c <= total r)%nat).
Proof.
  intros Hr. apply benford_summary_emitted in Hr as [-> Hne].
  cbn [counts total benford_of].
  assert (Hpos : (1 <= length (tallied_digits s))%nat)
    by (destruct (tallied_digits s); [congruence | simpl; lia]).
  split; [|split; [|split]].
  - rewrite sum_counts_map. apply observed_sum.
  - apply tallied_digits_nonzero.
  - exact Hpos.
  - intros d c Hin. apply in_map_iff in Hin as (d' & [= <- <-] & _).
    apply count_occ_bound.
Qed.

Lemma Qsum_nonneg (f : nat -> Q) (l : list nat) :
  (forall d, In d l -> 0 <= f d)%Q -> (0 <= Qsum (map f l))%Q.
Proof.
  induction l as [|d l IH]; intros Hf; cbn [map Qsum fold_right]; [apply Qle_refl|].
  change (fold_right Qplus 0%Q ?t) with (Qsum t).
  apply Qle_trans with (0 + 0)%Q; [apply Qle_refl|].
  apply Qplus_le_compat; [apply Hf; now left | apply IH; intros; apply Hf; now right].
Qed.

Lemma Qsum_zero_terms (f : nat -> Q) (l : list nat) :
  (forall d, In d l -> 0 <= f d)%Q ->
  (Qsum (map f l) == 0)%Q -> forall d, In d l -> (f d == 0)%Q.
Proof.
  induction l as [|x l IH]; intros Hf Hs d Hd; [destruct Hd|].
  cbn [map Qsum fold_right] in Hs. change (fold_right Qplus 0%Q ?t) with (Qsum t) in Hs.
  assert (Hx : (0 <= f x)%Q) by (apply Hf; now left).
  assert (Hl : (0 <= Qsum (map f l))%Q) by (apply Qsum_nonneg; intros; apply Hf; now right).
  assert (Hx0 : (f x == 0)%Q).
  { apply Qle_antisym; [|exact Hx]. rewrite <- Hs.
    rewrite <- (Qplus_0_r (f x)) at 1. apply Qplus_le_compat; [apply Qle_refl | exact Hl]. }
  destruct Hd as [<-|Hd]; [exact Hx0|].
  rewrite Hx0, Qplus_0_l in Hs.
  apply IH; [intros; apply Hf; now right | exact Hs | exact Hd].
Qed.

Lemma Qsquare_nonneg (x : Q) : (0 <= x * x)%Q.
Proof. destruct x as [n d]. unfold Qle, Qmult. simpl. nia. Qed.

Lemma chi_term_nonneg (x e : Q) : (0 < e -> 0 <= (x - e) ^ 2 / e)%Q.
Proof.
  intros He. apply Qle_shift_div_l; [exact He|]. rewrite Qmult_0_l.
  simpl. apply Qsquare_nonneg.
Qed.

Lemma chi_term_zero_match (x e : Q) : (0 < e -> (x - e) ^ 2 / e == 0 -> x == e)%Q.
Proof.
  intros He Hz.
  assert (Hsq : ((x - e) * (x - e) == 0)%Q).
  { assert (Hne : ~ (e == 0)%Q) by (intros E; rewrite E in He; now apply Qlt_irrefl in He).
    setoid_replace ((x - e) * (x - e))%Q with ((x - e) ^ 2 / e * e)%Q
      using relation Qeq by (simpl; field; exact Hne).
    rewrite Hz. ring. }
  apply Qmult_integral in Hsq.
  assert (H0 : (x - e == 0)%Q) by tauto.
  setoid_replace x with (x - e + e)%Q using relation Qeq by ring.
  rewrite H0. ring.
Qed.

Lemma expected_count_pos (tot d : nat) :
  log10_positive -> In d digit_range -> (1 <= tot)%nat -> (0 < expected_count tot d)%Q.
Proof.
  intros Hlog Hd Ht. unfold expected_count.
  apply Qmult_lt_0_compat; [now apply Hlog | apply of_int_pos; lia].
Qed.

(** X5. Where [math.log10] is positive on the nine arguments 1 + 1/d, the
    chi-square of an emitted Benford result is not negative, and it is 0
    only when every observed count equals its expected count. *)
Theorem chi_square_never_negative (s : Series) (r : BenfordResult) :
  log10_positive ->
  benford_summary s = Ok (Some r) ->
  (0 <= chi_square r)%Q
  /\ ((chi_square r == 0)%Q ->
      forall d, In d digit_range ->
        (of_int (observed s d) == log10 (1 + 1 / of_int d) * of_int (total r))%Q).
Proof.
  intros Hlog Hr. apply benford_summary_emitted in Hr as [-> Hne].
  cbn [chi_square total benford_of].
  assert (Hpos : (1 <= length (tallied_digits s))%nat)
    by (destruct (tallied_digits s); [congruence | simpl; lia]).
  assert (Hterm : forall d, In d digit_range -> (0 <= chi_term s d)%Q).
  { intros d Hd. apply chi_term_nonneg. now apply expected_count_pos. }
  split; [now apply Qsum_nonneg|].
  intros Hz d Hd. apply (chi_term_zero_match _ (expected_count (length (tallied_digits s)) d)).
  - now apply expected_count_pos.
  - exact (Qsum_zero_terms _ _ Hterm Hz d Hd).
Qed.

(** X6. A column that gets a Benford result also gets a numeric summary,
    and the Benford total does not exceed the non-null count of that
    summary. *)
Theorem benford_implies_numeric_summary (s : Series) (r : BenfordResult) :
  benford_summary s = Ok (Some r) ->
  exists info,
    numeric_summary s = Some info /\ (total r <= ns_non_null info)%nat.
Proof.
  intros Hr. apply benford_summary_emitted in Hr as [-> Hne].
  pose proof (proj1 (tallied_digits_nonempty s) Hne) as [Hnum _].
  pose proof (tallied_digits_nonzero s) as Hlen.
  assert (Hle : (length (nonzero_values s) <= series_notna_sum s)%nat).
  { rewrite <- (length_present s Hnum). unfold present, nonzero_values.
    rewrite length_map. apply filter_length_le. }
  assert (Hpos : (1 <= length (tallied_digits s))%nat)
    by (destruct (tallied_digits s); [congruence | simpl; lia]).
  unfold numeric_summary. rewrite Hnum. cbn [negb].
  destruct (Nat.eqb_spec (series_notna_sum s) 0) as [E|E]; [lia|].
  eexists. split; [reflexivity|]. cbn [ns_non_null total benford_of]. lia.
Qed.

Lemma to_Q_fneg (x : pyfloat) : to_Q (fneg x) = Qopp (to_Q x).
Proof.
  destruct x as [sg|sg m e]; [reflexivity|]. cbn [fneg to_Q].
  destruct sg; cbn [negb]; [|reflexivity].
  destruct (inject_Z (Z.pos m) * Qpower (10 # 1) e)%Q as [n d].
  unfold Qopp. cbn [Qnum Qden]. now rewrite Z.opp_involutive.
Qed.

Lemma present_neg (s : Series) : present (neg s) = map Qopp (present s).
Proof.
  unfold present, dropna. destruct s as [dt xs|xs|xs]; [|reflexivity..].
  cbn [neg numeric_values]. induction xs as [|[x|] xs IH]; [reflexivity|..];
    cbn [map option_map]; rewrite !omap_step; cbn [map].
  - now rewrite to_Q_fneg, IH.
  - exact IH.
Qed.

Lemma Qcompare_opp (x y : Q) : (- x ?= - y)%Q = CompOpp (x ?= y)%Q.
Proof.
  unfold Qcompare, Qopp. cbn [Qnum Qden].
  rewrite !Z.mul_opp_l, Z.compare_opp. apply Z.compare_antisym.
Qed.

Lemma Qmin_opp (x y : Q) : Qmin (- x) (- y) = Qopp (Qmax x y).
Proof.
  unfold Qmin, Qmax, GenericMinMax.gmin, GenericMinMax.gmax.
  rewrite Qcompare_opp. now destruct (x ?= y)%Q.
Qed.

Lemma Qmax_opp (x y : Q) : Qmax (- x) (- y) = Qopp (Qmin x y).
Proof.
  unfold Qmin, Qmax, GenericMinMax.gmin, GenericMinMax.gmax.
  rewrite Qcompare_opp. now destruct (x ?= y)%Q.
Qed.

Lemma fold_Qmin_opp (rest : list Q) (x : Q) :
  fold_left Qmin (map Qopp rest) (- x)%Q = Qopp (fold_left Qmax rest x).
Proof.
  revert x. induction rest as [|y rest IH]; intros x; [reflexivity|].
  cbn [map fold_left]. now rewrite Qmin_opp, IH.
Qed.

Lemma fold_Qmax_opp (rest : list Q) (x : Q) :
  fold_left Qmax (map Qopp rest) (- x)%Q = Qopp (fold_left Qmin rest x).
Proof.
  revert x. induction rest as [|y rest IH]; intros x; [reflexivity|].
  cbn [map fold_left]. now rewrite Qmax_opp, IH.
Qed.

Lemma series_notna_sum_neg (s : Series) : series_notna_sum (neg s) = series_notna_sum s.
Proof.
  destruct s as [dt xs|xs|xs]; [|reflexivity..]. cbn [neg series_notna_sum].
  induction xs as [|c xs IH]; [reflexivity|]. cbn [map].
  rewrite !notna_sum_cons, IH. now destruct c.
Qed.

(** X7. Unlike the Benford tally, the numeric summary sees the sign: a
    column that holds the negated values of a summarised column is
    summarised too, with the same non-null count and with the extremes
    swapped (its minimum is the other's maximum negated, and the other way
    round). *)
Theorem numeric_summary_neg (s : Series) (info : NumericSummary) :
  numeric_summary s = Some info ->
  exists info',
    numeric_summary (neg s) = Some info'
    /\ ns_non_null info' = ns_non_null info
    /\ ns_min info' = Qopp (ns_max info)
    /\ ns_max info' = Qopp (ns_min info).
Proof.
  unfold numeric_summary. rewrite series_notna_sum_neg.
  assert (Hd : is_numeric_dtype (neg s) = is_numeric_dtype s) by now destruct s.
  rewrite Hd. destruct (is_numeric_dtype s) eqn:En; cbn [negb]; [|discriminate].
  destruct (Nat.eqb_spec (series_notna_sum s) 0) as [E|E]; [discriminate|].
  intros [= <-]. eexists. split; [reflexivity|].
  cbn [ns_non_null ns_min ns_max].
  unfold series_min, series_max. rewrite present_neg.
  pose proof (length_present s En) as Hlen.
  destruct (present s) as [|x rest] eqn:Ep; [simpl in Hlen; lia|].
  split; [reflexivity|].
  cbn [map]. split; [apply fold_Qmin_opp | apply fold_Qmax_opp].
Qed.

End AnalysesMore.

Lemma benford_counts_add_up_witness :
  benford_summary (L := Sample.library) Sample.amounts
    = Ok (Some (benford_of (L := Sample.library) Sample.amounts))
  /\ total (benford_of (L := Sample.library) Sample.amounts) = 8%nat
  /\ sum_counts (counts (benford_of (L := Sample.library) Sample.amounts)) = 8%nat.
Proof.
  assert (He : benford_summary (L := Sample.library) Sample.amounts
               = Ok (Some (benford_of (L := Sample.library) Sample.amounts)))
    by (vm_compute; reflexivity).
  split; [exact He|].
  destruct (benford_counts_add_up (L := Sample.library) _ _ He) as (Hsum & Htot & _).
  split; [rewrite Htot; reflexivity | rewrite Hsum, Htot; reflexivity].
Defined.

Lemma sample_log10_positive : log10_positive (L := Sample.library).
Proof.
  intros d Hd. simpl in Hd.
  decompose [or] Hd; subst; try contradiction; vm_compute; reflexivity.
Qed.

Lemma chi_square_never_negative_witness :
  benford_summary (L := Sample.library) Sample.amounts
    = Ok (Some (benford_of (L := Sample.library) Sample.amounts))
  /\ (0 <= chi_square (benford_of (L := Sample.library) Sample.amounts))%Q.
Proof.
  assert (He : benford_summary (L := Sample.library) Sample.amounts
               = Ok (Some (benford_of (L := Sample.library) Sample.amounts)))
    by (vm_compute; reflexivity).
  split; [exact He|].
  exact (proj1 (chi_square_never_negative (L := Sample.library) _ _
                  sample_log10_positive He)).
Defined.

Lemma benford_implies_numeric_summary_witness :
  benford_summary (L := Sample.library) Sample.amounts
    = Ok (Some (benford_of (L := Sample.library) Sample.amounts))
  /\ is_Some (numeric_summary (L := Sample.library) Sample.amounts).
Proof.
  assert (He : benford_summary (L := Sample.library) Sample.amounts
               = Ok (Some (benford_of (L := Sample.library) Sample.amounts)))
    by (vm_compute; reflexivity).
  split; [exact He|].
  destruct (benford_implies_numeric_summary (L := Sample.library) _ _ He) as (info & -> & _).
  eauto.
Defined.

Lemma numeric_summary_neg_witness :
  numeric_summary (L := Sample.library) Sample.amounts = Some amounts_summary
  /\ exists info',
       numeric_summary (L := Sample.library) (neg Sample.amounts) = Some info'
       /\ ns_min info' = Qopp (ns_max amounts_summary).
Proof.
  assert (He : numeric_summary (L := Sample.library) Sample.amounts = Some amounts_summary)
    by (vm_compute; reflexivity).
  split; [exact He|].
  destruct (numeric_summary_neg (L := Sample.library) _ _ He) as (info' & Hn & _ & Hmin & _).
  exists info'. split; [exact Hn | exact Hmin].
Defined.

(* ===================================================================== *)
(** ** Further properties of the report *)
(* ===================================================================== *)

Section ReportMore.

Context `{L : Library}.

Lemma notna_isna_sum {A} (xs : list (option A)) :
  (notna_sum xs + isna_sum xs = length xs)%nat.
Proof.
  unfold isna_sum. induction xs as [|c xs IH]; [reflexivity|].
  rewrite notna_sum_cons. destruct c.
  - rewrite filter_cons_False by discriminate. simpl. lia.
  - rewrite filter_cons_True by reflexivity. simpl. lia.
Qed.

Lemma series_notna_isna (s : Series) :
  (series_notna_sum s + series_isna_sum s = len s)%nat.
Proof. destruct s; apply notna_isna_sum. Qed.

Lemma count_distinct_le {A} (eqb : A -> A -> bool) (xs : list A) :
  (count_distinct eqb xs <= length xs)%nat.
Proof.
  induction xs as [|x xs IH]; [reflexivity|]. cbn [count_distinct length].
  destruct (existsb (eqb x) xs); lia.
Qed.

Lemma nunique_le_notna (s : Series) : (nunique s <= series_notna_sum s)%nat.
Proof.
  destruct s; cbn [nunique series_notna_sum]; rewrite <- length_dropna;
    apply count_distinct_le.
Qed.

Lemma benford_applies_spec (s : Series) :
  benford_summary s
  = Ok (if benford_applies s then Some (benford_of s) else None).
Proof.
  rewrite benford_summary_spec. unfold benford_applies.
  pose proof (tallied_digits_nonzero s) as Hlen.
  destruct (tallied_digits s), (nonzero_values s); try discriminate; reflexivity.
Qed.

Lemma column_step_run (sheet_name : string) (st : Tallies) (col : string * Series) :
  exists st',
    column_step sheet_name st col = Ok st'
    /\ t_column_rows st' = t_column_rows st ++ [column_stat sheet_name col]
    /\ t_benford_rows st'
       = t_benford_rows st
         ++ (if benford_applies (snd col) then [benford_row_for sheet_name col] else []).
Proof.
  unfold column_step. rewrite detect_date_range_spec, benford_applies_spec.
  cbn [mbind result_bind]. destruct (benford_applies (snd col)).
  - rewrite benford_row_of. cbn [mbind result_bind]. eexists. repeat split.
  - eexists. split; [reflexivity|]. cbn [t_column_rows t_benford_rows].
    now rewrite app_nil_r.
Qed.

Lemma column_loop_run (sheet_name : string) (cols : list (string * Series)) (st : Tallies) :
  exists st',
    fold_result (column_step sheet_name) cols st = Ok st'
    /\ t_column_rows st' = t_column_rows st ++ map (column_stat sheet_name) cols
    /\ t_benford_rows st' = t_benford_rows st ++ benford_rows_of sheet_name cols.
Proof.
  revert st. induction cols as [|col cols IH]; intros st; cbn [fold_result].
  - exists st. unfold benford_rows_of. cbn [map List.filter]. now rewrite !app_nil_r.
  - destruct (column_step_run sheet_name st col) as (st1 & -> & Hc1 & Hb1).
    cbn [mbind result_bind].
    destruct (IH st1) as (st' & -> & Hc & Hb). exists st'. split; [reflexivity|].
    rewrite Hc, Hc1, Hb, Hb1, <- !app_assoc. split; [reflexivity|].
    f_equal. unfold benford_rows_of. cbn [List.filter].
    now destruct (benford_applies (snd col)).
Qed.

(** X8. The analysis of a column of finite floats and missing values
    never raises.  It records one row of
    column statistics, tagged with the sheet and the column, in which the
    non-null and the null count add up to the length of the column and the
    distinct count does not exceed the non-null count; and it adds one row
    to the Benford table if the column holds a value that is neither missing
    nor zero, none otherwise. *)
Theorem column_step_never_raises (sheet_name : string) (st : Tallies)
    (col : string * Series) :
  exists st' row,
    column_step sheet_name st col = Ok st'
    /\ t_column_rows st' = t_column_rows st ++ [row]
    /\ cs_sheet row = sheet_name /\ cs_column row = fst col
    /\ (cs_non_null row + cs_nulls row = len (snd col))%nat
    /\ (cs_unique row <= cs_non_null row)%nat
    /\ length (t_benford_rows st')
       = (length (t_benford_rows st) + if benford_applies (snd col) then 1 else 0)%nat.
Proof.
  destruct (column_step_run sheet_name st col) as (st' & Hrun & Hc & Hb).
  exists st', (column_stat sheet_name col). split; [exact Hrun|]. split; [exact Hc|].
  cbn [column_stat cs_sheet cs_column cs_non_null cs_nulls cs_unique].
  split; [reflexivity|]. split; [reflexivity|].
  split; [apply series_notna_isna|]. split; [apply nunique_le_notna|].
  rewrite Hb, length_app. now destruct (benford_applies (snd col)).
Qed.

Lemma sheet_step_report (output_dir : Path) (wb : ExcelFile) (st : Progress)
    (sheet_name : string) :
  post (sheet_step output_dir wb st sheet_name)
    (fun st' w =>
       exists df csv sh,
         parse wb sheet_name = Ok df
         /\ describe_csv df = Ok csv
         /\ w = [(describe_path output_dir sheet_name, csv)]
         /\ describes (sheet_name, df) sh
         /\ p_sheets st' = p_sheets st ++ [sh]
         /\ p_column_rows st'
            = p_column_rows st ++ map (column_stat sheet_name) (df_columns df)
         /\ p_benford_rows st'
            = p_benford_rows st ++ benford_rows_of sheet_name (df_columns df)).
Proof.
  unfold sheet_step.
  eapply post_bind; [apply post_lift_eq|].
  cbv beta. intros df ? [Hdf ->].
  eapply post_bind; [apply post_lift_eq|].
  cbv beta. intros t ? [Ht ->].
  eapply post_bind; [apply post_lift_eq|].
  cbv beta. intros csv ? [Hcsv ->].
  eapply post_bind; [apply post_write_eq|].
  cbv beta. intros [] ? ->. apply post_ret.
  destruct (column_loop_run sheet_name (df_columns df)
              {| t_date_ranges := []; t_numeric_summaries := [];
                 t_column_rows := p_column_rows st;
                 t_benford_rows := p_benford_rows st |}) as (t' & Ht' & Hc & Hb).
  rewrite Ht' in Ht. injection Ht as <-.
  eexists df, csv, _. cbn [p_sheets p_column_rows p_benford_rows].
  split; [exact Hdf|]. split; [exact Hcsv|]. split; [reflexivity|].
  split; [|split; [reflexivity | split; [exact Hc | exact Hb]]].
  unfold describes. cbn. repeat split.
Qed.

Lemma sheet_loop_report (output_dir : Path) (wb : ExcelFile) (names : list string)
    (st : Progress) :
  post (foldM (sheet_step output_dir wb) names st)
    (fun st' w =>
       exists dfs csvs shs,
         Forall2 (fun n df => parse wb n = Ok df) names dfs
         /\ Forall2 (fun df csv => describe_csv df = Ok csv) dfs csvs
         /\ Forall2 describes (combine names dfs) shs
         /\ w = combine (map (describe_path output_dir) names) csvs
         /\ p_sheets st' = p_sheets st ++ shs
         /\ p_column_rows st' = p_column_rows st ++ column_stats_of (combine names dfs)
         /\ p_benford_rows st' = p_benford_rows st ++ benford_rows_all (combine names dfs)).
Proof.
  revert st. induction names as [|n names IH]; intros st; cbn [foldM].
  - apply post_ret. exists [], [], []. cbn. rewrite !app_nil_r. repeat split; constructor.
  - eapply post_bind; [apply sheet_step_report|].
    cbv beta. intros st1 w1 (df & csv & sh & Hdf & Hcsv & -> & Hsh & Hs1 & Hc1 & Hb1).
    eapply post_weaken; [apply IH|].
    cbv beta. intros st2 w2 (dfs & csvs & shs & Hdfs & Hcsvs & Hshs & -> & Hs2 & Hc2 & Hb2).
    exists (df :: dfs), (csv :: csvs), (sh :: shs).
    split; [now constructor|]. split; [now constructor|].
    split; [cbn [combine]; now constructor|]. split; [reflexivity|].
    rewrite Hs2, Hs1, Hc2, Hc1, Hb2, Hb1, <- !app_assoc. repeat split.
Qed.

Lemma steady_ret {A} (a : A) : steady (mret a : io A).
Proof. intros fs1 fs2 _. repeat split. Qed.

Lemma steady_lift {A} (r : result A) : steady (lift r).
Proof. intros fs1 fs2 _. repeat split. Qed.

Lemma steady_write (p : Path) (data : string) : steady (write_text p data).
Proof.
  intros fs1 fs2 Hd. unfold write_text, is_dir. rewrite Hd.
  repeat match goal with
         | |- context [if ?b then _ else _] => destruct b
         end; cbn [fst snd dirs]; auto.
Qed.

Lemma steady_bind {A B} (m : io A) (f : A -> io B) :
  steady m -> (forall a, steady (f a)) -> steady (m ≫= f).
Proof.
  intros Hm Hf fs1 fs2 Hd. destruct (Hm fs1 fs2 Hd) as (Hr & H1 & H2).
  unfold mbind, io_bind.
  destruct (m fs1) as [[a1|e1] fs1'], (m fs2) as [[a2|e2] fs2']; cbn [fst snd] in *;
    try discriminate.
  - injection Hr as <-.
    destruct (Hf a1 fs1' fs2') as (Hr' & H1' & H2'); [congruence|].
    split; [exact Hr'|]. split; congruence.
  - cbn [fst snd]. injection Hr as ->. repeat split; assumption.
Qed.

Lemma steady_foldM {A S} (f : S -> A -> io S) (xs : list A) (s : S) :
  (forall s x, steady (f s x)) -> steady (foldM f xs s).
Proof.
  intros Hf. revert s. induction xs as [|x xs IH]; intros s; cbn [foldM].
  - apply steady_ret.
  - apply steady_bind; auto.
Qed.

Ltac unseeing_steps :=
  repeat first
    [ apply oblivious_ret
    | apply oblivious_lift
    | apply oblivious_write
    | apply oblivious_foldM; intros; unfold sheet_step
    | apply oblivious_bind; [|intros]
    | match goal with
      | |- oblivious (match ?x with _ => _ end) => destruct x
      end ].

Ltac steady_steps :=
  repeat first
    [ apply steady_ret
    | apply steady_lift
    | apply steady_write
    | apply steady_foldM; intros; unfold sheet_step
    | apply steady_bind; [|intros]
    | match goal with
      | |- steady (match ?x with _ => _ end) => destruct x
      end ].

(** [build_summary], after it has made the directory and read the bytes,
    writes the report of the workbook it opened. *)
Lemma build_summary_report (excel_path output_dir : Path) :
  exists k : string -> io unit,
    build_summary excel_path output_dir
      = (mkdir output_dir ≫= fun _ => read_bytes excel_path ≫= k)
    /\ (forall data, steady (k data))
    /\ (forall data, oblivious (k data))
    /\ (forall data, post (k data) (fun _ w =>
          exists wb, open_excel data = Ok wb
                     /\ report_of (path_name excel_path) output_dir wb w)).
Proof.
  unfold build_summary.
  lazymatch goal with
  | |- context [read_bytes excel_path ≫= ?K] => exists K
  end.
  split; [reflexivity|].
  split; [intros data; steady_steps|].
  split; [intros data; unseeing_steps|]. intros data.
  eapply post_bind; [apply post_lift_eq|].
  cbv beta. intros wb ? [Hwb ->].
  eapply post_bind; [apply sheet_loop_report|].
  cbv beta. intros st w1 (dfs & csvs & shs & Hdfs & Hcsvs & Hshs & -> & Hs & Hc & Hb).
  cbn [app p_sheets p_column_rows p_benford_rows] in Hs, Hc, Hb.
  eapply post_bind; [apply post_write_eq|].
  cbv beta. intros [] ? ->.
  eapply post_bind; [apply post_write_eq|].
  cbv beta. intros [] ? ->.
  eapply post_bind with
    (Q1 := fun _ w => w = match p_benford_rows st with
                          | [] => []
                          | rows => [(joinpath output_dir "benford_summary.csv",
                                      benford_csv rows)]
                          end).
  { destruct (p_benford_rows st); [now apply post_ret | apply post_write_eq]. }
  cbv beta. intros [] ? ->.
  eapply post_bind; [apply post_write_eq|].
  cbv beta. intros [] ? ->.
  eapply post_weaken; [apply post_write_eq|].
  cbv beta. intros [] ? ->.
  exists wb. split; [exact Hwb|]. exists dfs, csvs, shs.
  split; [exact Hdfs|]. split; [exact Hcsvs|]. split; [exact Hshs|].
  cbv zeta. rewrite Hs, Hc, Hb.
  destruct (benford_rows_all (combine (sheet_names wb) dfs)); reflexivity.
Qed.

(** A successful run of [main]: what it read, and the file system it
    leaves. *)
Lemma main_report (args : Args) (fs fs' : FS) :
  main args fs = (Ok tt, fs') ->
  exists data wb w,
    files fs !! input args = Some data
    /\ open_excel data = Ok wb
    /\ report_of (path_name (input args)) (output args) wb w
    /\ dirs fs' = dirs fs ∪ list_to_set (prefixes (output args))
    /\ files fs' = foldl (fun m pc => <[fst pc := snd pc]> m) (files fs) w
    /\ journal fs' = journal fs ++ w.
Proof.
  intros Hrun. unfold main in Hrun.
  apply bind_ok in Hrun as (found & fs0 & Hex & Hrun).
  apply path_exists_run in Hex as [-> ->].
  destruct (is_dir fs (input args) || is_file fs (input args)); cbn [negb] in Hrun;
    [|discriminate].
  destruct (build_summary_report (input args) (output args)) as (k & Hk & _ & _ & Hpost).
  rewrite Hk in Hrun.
  apply bind_ok in Hrun as (u & fsm & Hmk & Hrun).
  apply bind_ok in Hrun as (data & fs1 & Hrd & Hrun).
  apply mkdir_ok in Hmk as (Hf & Hj & Hd).
  apply read_bytes_ok in Hrd as [-> Hdata].
  destruct (Hpost _ _ _ _ Hrun) as (w & -> & wb & Hwb & Hrep).
  exists data, wb, w. cbn [commit dirs files journal]. rewrite Hf, Hd, Hj.
  rewrite Hf in Hdata. repeat split; assumption.
Qed.

Lemma lookup_commit_other (w : list (Path * string)) (m : gmap (list string) string)
    (p : Path) :
  ~ In p (map fst w) ->
  foldl (fun m pc => <[fst pc := snd pc]> m) m w !! p = m !! p.
Proof.
  revert m. induction w as [|[q c] w IH]; intros m Hp; [reflexivity|].
  cbn [foldl fst snd]. rewrite IH by (intros Hin; apply Hp; now right).
  apply lookup_insert_ne. intros ->. apply Hp. now left.
Qed.

Lemma lookup_commit_last (w : list (Path * string)) (m : gmap (list string) string)
    (p : Path) (data : string) :
  NoDup (map fst w) -> In (p, data) w ->
  foldl (fun m pc => <[fst pc := snd pc]> m) m w !! p = Some data.
Proof.
  revert m. induction w as [|[q c] w IH]; intros m Hnd Hin; [destruct Hin|].
  cbn [map fst] in Hnd. apply NoDup_cons in Hnd as [Hq Hnd]. cbn [foldl fst snd].
  destruct Hin as [[= -> ->]|Hin].
  - rewrite lookup_commit_other; [apply lookup_insert_eq|].
    intros Hin. apply Hq. now apply list_elem_of_In.
  - now apply IH.
Qed.

Lemma joinpath_inj (dir : Path) (a b : string) : joinpath dir a = joinpath dir b -> a = b.
Proof. unfold joinpath. intros H. apply app_inv_head in H. congruence. Qed.

Lemma append_inv_head (s t u : string) : s +:+ t = s +:+ u -> t = u.
Proof.
  induction s as [|c s IH]; [now rewrite !append_nil_l|].
  rewrite !append_cons. intros [= H]. auto.
Qed.

Lemma length_append (s t : string) :
  String.length (s +:+ t) = (String.length s + String.length t)%nat.
Proof.
  induction s as [|c s IH]; [now rewrite append_nil_l|].
  rewrite append_cons. simpl. now rewrite IH.
Qed.

Lemma append_inv_tail (s s' t : string) : s +:+ t = s' +:+ t -> s = s'.
Proof.
  revert s'. induction s as [|c s IH]; intros [|c' s'] H.
  - reflexivity.
  - apply (f_equal String.length) in H. rewrite append_nil_l, length_append in H.
    simpl in H. lia.
  - apply (f_equal String.length) in H. rewrite append_nil_l, length_append in H.
    simpl in H. lia.
  - rewrite !append_cons in H. injection H as -> H. f_equal. auto.
Qed.

Lemma describe_path_inj (dir : Path) (n n' : string) :
  describe_path dir n = describe_path dir n' -> n = n'.
Proof.
  unfold describe_path. intros H. apply joinpath_inj, append_inv_head in H.
  now apply append_inv_tail in H.
Qed.

Lemma describe_path_not_fixed (dir : Path) (n name : string) :
  In name ["column_stats.csv"; "summary.json"; "benford_summary.csv";
           "summary.md"; "index.md"] ->
  describe_path dir n <> joinpath dir name.
Proof.
  unfold describe_path. intros Hin H. apply joinpath_inj in H.
  change ("describe_" +:+ n +:+ ".csv") with (String "d" ("escribe_" +:+ n +:+ ".csv")) in H.
  simpl in Hin. decompose [or] Hin; subst; try contradiction; discriminate.
Qed.

Lemma fst_combine_describe (dir : Path) (names : list string) (dfs : list DataFrame)
    (csvs : list string) :
  Forall2 (fun df csv => describe_csv df = Ok csv) dfs csvs ->
  length names = length dfs ->
  map fst (combine (map (describe_path dir) names) csvs) = map (describe_path dir) names.
Proof.
  intros Hc Hl. apply Forall2_length in Hc.
  rewrite <- (length_map (describe_path dir)) in Hl. revert Hl Hc.
  generalize (map (describe_path dir) names) as ps. revert csvs.
  induction dfs as [|df dfs IH]; intros [|c cs] [|p ps]; simpl; try lia; auto.
  intros. f_equal. apply IH; lia.
Qed.

(** The paths of a report, in the order of the writes. *)
Lemma report_paths (input_name : string) (dir : Path) (wb : ExcelFile)
    (w : list (Path * string)) :
  report_of input_name dir wb w ->
  exists dfs,
    Forall2 (fun n df => parse wb n = Ok df) (sheet_names wb) dfs
    /\ map fst w
       = artifacts dir wb (match benford_rows_all (combine (sheet_names wb) dfs) with
                           | [] => false
                           | _ => true
                           end).
Proof.
  intros (dfs & csvs & shs & Hdfs & Hcsvs & _ & ->). exists dfs. split; [exact Hdfs|].
  unfold artifacts. rewrite !map_app.
  rewrite (fst_combine_describe dir _ dfs) by (eauto using Forall2_length).
  destruct (benford_rows_all (combine (sheet_names wb) dfs)); reflexivity.
Qed.


Lemma artifacts_fixed (dir : Path) (wb : ExcelFile) (b : bool) :
  artifacts dir wb b
  = map (describe_path dir) (sheet_names wb)
    ++ map (joinpath dir)
         (["column_stats.csv"; "summary.json"]
          ++ (if b then ["benford_summary.csv"] else [])
          ++ ["summary.md"; "index.md"]).
Proof. unfold artifacts. now destruct b. Qed.

Lemma artifacts_NoDup (dir : Path) (wb : ExcelFile) (b : bool) :
  NoDup (sheet_names wb) -> NoDup (artifacts dir wb b).
Proof.
  intros Hnd. rewrite artifacts_fixed. apply NoDup_app. split; [|split].
  - apply NoDup_fmap_2; [|exact Hnd]. intros n n'. apply describe_path_inj.
  - intros p Hp Hfixed. apply list_elem_of_In, in_map_iff in Hp as (n & <- & _).
    apply list_elem_of_In, in_map_iff in Hfixed as (name & Heq & Hin).
    apply (describe_path_not_fixed dir n name); [|now symmetry].
    destruct b; simpl in Hin |- *; tauto.
  - apply NoDup_fmap_2; [intros a c; apply joinpath_inj|].
    destruct b; apply (bool_decide_unpack _); vm_compute; exact I.
Qed.

Lemma prefixes_self (p : Path) : p <> [] -> In p (prefixes p).
Proof.
  intros Hp. unfold prefixes. apply in_map_iff. exists (length p).
  split; [apply firstn_all|]. apply in_seq. destruct p; [congruence | simpl; lia].
Qed.

Lemma no_separator_append (a b : string) :
  no_separator (a +:+ b) = no_separator a && no_separator b.
Proof.
  unfold no_separator. induction a as [|c a IH]; [now rewrite append_nil_l|].
  rewrite append_cons. cbn [list_ascii_of_string forallb]. rewrite IH.
  now rewrite andb_assoc.
Qed.

Lemma component_describe (n : string) :
  no_separator n = true -> component ("describe_" +:+ n +:+ ".csv") = true.
Proof.
  intros Hn. unfold component. rewrite !no_separator_append, Hn.
  change ("describe_" +:+ n +:+ ".csv") with (String "d" ("escribe_" +:+ n +:+ ".csv")).
  reflexivity.
Qed.

Lemma directly_inside_describe (dir : Path) (n : string) :
  no_separator n = true -> directly_inside dir (describe_path dir n).
Proof.
  intros Hn. exists ("describe_" +:+ n +:+ ".csv").
  split; [now apply component_describe | reflexivity].
Qed.

Lemma directly_inside_fixed (dir : Path) (name : string) :
  component name = true -> directly_inside dir (joinpath dir name).
Proof. intros Hname. now exists name. Qed.

Lemma artifacts_directly_inside (dir : Path) (wb : ExcelFile) (b : bool) (p : Path) :
  forallb no_separator (sheet_names wb) = true ->
  In p (artifacts dir wb b) -> directly_inside dir p.
Proof.
  intros Hplain. rewrite forallb_forall in Hplain.
  rewrite artifacts_fixed, in_app_iff, !in_map_iff.
  intros [(n & <- & Hn)|(name & <- & Hin)].
  - apply directly_inside_describe. auto.
  - apply directly_inside_fixed.
    destruct b; simpl in Hin; decompose [or] Hin; subst; try contradiction; reflexivity.
Qed.

(** X9. When no sheet name holds a path separator, a successful run
    touches nothing outside the output directory: the output directory is a
    directory afterwards, every file whose path does not name an entry of
    it keeps its bytes, no file and no directory disappears, and every path
    it wrote names an entry of the output directory. *)
Theorem main_writes_only_reports (args : Args) (fs fs' : FS) :
  plain_sheets (input args) fs ->
  main args fs = (Ok tt, fs') ->
  is_dir fs' (output args) = true
  /\ (forall p, ~ directly_inside (output args) p -> files fs' !! p = files fs !! p)
  /\ (forall p, is_Some (files fs !! p) -> is_Some (files fs' !! p))
  /\ (forall d, d ∈ dirs fs -> d ∈ dirs fs')
  /\ exists w, journal fs' = journal fs ++ w
       /\ forall p, In p (map fst w) -> directly_inside (output args) p.
Proof.
  intros Hplain Hrun.
  destruct (main_report args fs fs' Hrun)
    as (data & wb & w & Hdata & Hwb & Hrep & Hd & Hf & Hj).
  specialize (Hplain data wb Hdata Hwb).
  destruct (report_paths _ _ _ _ Hrep) as (dfs & _ & Hpaths).
  assert (Hin : forall p, In p (map fst w) -> directly_inside (output args) p)
    by (intros p Hp; rewrite Hpaths in Hp; eapply artifacts_directly_inside; eauto).
  split; [|split; [|split; [|split]]].
  - unfold is_dir. rewrite Hd. destruct (output args) as [|c rest] eqn:Eo; [reflexivity|].
    apply orb_true_iff. right. apply bool_decide_eq_true.
    apply elem_of_union_r, elem_of_list_to_set, list_elem_of_In, prefixes_self. discriminate.
  - intros p Hp. rewrite Hf. apply lookup_commit_other.
    intros Hw. apply Hp. now apply Hin.
  - intros p Hp. rewrite Hf. apply lookup_commit_written. now right.
  - intros d Hdin. rewrite Hd. now apply elem_of_union_l.
  - exists w. split; [exact Hj | exact Hin].
Qed.

(** X10. When the sheets of the workbook have distinct names without a
    path separator, no report of a successful run overwrites another: the
    paths written are pairwise distinct entries of the output directory,
    and every file written holds, after the run, exactly the bytes that
    were written to it. *)
Theorem reports_read_back (args : Args) (fs fs' : FS) (data : string) (wb : ExcelFile) :
  main args fs = (Ok tt, fs') ->
  files fs !! input args = Some data ->
  open_excel data = Ok wb ->
  NoDup (sheet_names wb) ->
  forallb no_separator (sheet_names wb) = true ->
  exists w,
    journal fs' = journal fs ++ w
    /\ NoDup (map fst w)
    /\ forall p bytes, In (p, bytes) w ->
         directly_inside (output args) p /\ files fs' !! p = Some bytes.
Proof.
  intros Hrun Hdata Hwb Hnd Hplain.
  destruct (main_report args fs fs' Hrun) as (data' & wb' & w & Hd' & Hwb' & Hrep & _ & Hf & Hj).
  assert (data' = data) as -> by congruence. assert (wb' = wb) as -> by congruence.
  destruct (report_paths _ _ _ _ Hrep) as (dfs & _ & Hpaths).
  assert (Hnw : NoDup (map fst w)) by (rewrite Hpaths; now apply artifacts_NoDup).
  exists w. split; [exact Hj|]. split; [exact Hnw|].
  intros p bytes Hin. split.
  - eapply artifacts_directly_inside; [exact Hplain|]. rewrite <- Hpaths.
    apply in_map_iff. now exists (p, bytes).
  - rewrite Hf. now apply lookup_commit_last.
Qed.

Lemma in_combine_parse (wb : ExcelFile) (names : list string) (dfs : list DataFrame)
    (n : string) (df : DataFrame) :
  Forall2 (fun n df => parse wb n = Ok df) names dfs ->
  (In (n, df) (combine names dfs) <-> In n names /\ parse wb n = Ok df).
Proof.
  induction 1 as [|n0 df0 names dfs H0 _ IH]; cbn [combine In]; [tauto|].
  rewrite IH. split.
  - intros [[= <- <-]|[? ?]]; auto.
  - intros [[<-|Hin] Hp]; [left; congruence | right; auto].
Qed.

Lemma benford_rows_of_nonempty (sheet_name : string) (cols : list (string * Series)) :
  benford_rows_of sheet_name cols <> []
  <-> exists col, In col cols /\ benford_applies (snd col) = true.
Proof.
  unfold benford_rows_of. induction cols as [|col cols IH]; cbn [List.filter map].
  - split; [congruence | intros (? & [] & _)].
  - destruct (benford_applies (snd col)) eqn:E.
    + split; [intros _; exists col; split; [now left | exact E] | discriminate].
    + rewrite IH. split; intros (c & Hin & Hc); [exists c; split; [now right|exact Hc]|].
      destruct Hin as [<-|Hin]; [congruence | eauto].
Qed.

Lemma benford_rows_all_nonempty (sheets : list (string * DataFrame)) :
  benford_rows_all sheets <> []
  <-> exists nd col, In nd sheets /\ In col (df_columns (snd nd))
                     /\ benford_applies (snd col) = true.
Proof.
  unfold benford_rows_all. induction sheets as [|nd sheets IH]; cbn [flat_map].
  - split; [congruence | intros (? & ? & [] & _)].
  - split.
    + intros Hne. destruct (benford_rows_of (fst nd) (df_columns (snd nd))) eqn:E.
      * rewrite app_nil_l in Hne. apply IH in Hne as (nd' & col & Hin & Hc).
        exists nd', col. split; [now right | exact Hc].
      * assert (Hr : benford_rows_of (fst nd) (df_columns (snd nd)) <> [])
          by (rewrite E; discriminate).
        apply benford_rows_of_nonempty in Hr as (col & Hc). exists nd, col.
        split; [now left | exact Hc].
    + intros (nd' & col & [<-|Hin] & Hc) Happ; apply app_eq_nil in Happ as [E1 E2].
      * revert E1. apply benford_rows_of_nonempty. eauto.
      * revert E2. apply IH. eauto.
Qed.

Lemma benford_path_written (dir : Path) (wb : ExcelFile) (b : bool) :
  In (joinpath dir "benford_summary.csv") (artifacts dir wb b) <-> b = true.
Proof.
  rewrite artifacts_fixed, in_app_iff, !in_map_iff. split.
  - intros [(n & Heq & _)|(name & Heq & Hin)].
    + exfalso. apply (describe_path_not_fixed dir n "benford_summary.csv"); [|exact Heq].
      simpl. tauto.
    + apply joinpath_inj in Heq. subst name. destruct b; [reflexivity|].
      simpl in Hin. decompose [or] Hin; try contradiction; discriminate.
  - intros ->. right. exists "benford_summary.csv". split; [reflexivity|]. simpl. tauto.
Qed.

(** X11. In a successful run the Benford table [benford_summary.csv] is
    written exactly when some column of some sheet holds a value that is
    neither missing nor zero; it then renders one row per such column, in
    the order of the sheets and of their columns, tagged with its sheet and
    column. *)
Theorem benford_table_written_iff (args : Args) (fs fs' : FS) :
  main args fs = (Ok tt, fs') ->
  exists data wb dfs w,
    files fs !! input args = Some data
    /\ open_excel data = Ok wb
    /\ Forall2 (fun n df => parse wb n = Ok df) (sheet_names wb) dfs
    /\ journal fs' = journal fs ++ w
    /\ let rows := benford_rows_all (combine (sheet_names wb) dfs) in
       (In (joinpath (output args) "benford_summary.csv") (map fst w)
        <-> exists n df col,
              In n (sheet_names wb) /\ parse wb n = Ok df
              /\ In col (df_columns df) /\ benford_applies (snd col) = true)
       /\ (rows <> [] ->
           In (joinpath (output args) "benford_summary.csv", benford_csv rows) w)
       /\ map (fun r => (br_sheet r, br_column r)) rows
          = flat_map (fun nd =>
                        map (fun col => (fst nd, fst col))
                          (List.filter (fun col => benford_applies (snd col))
                             (df_columns (snd nd))))
              (combine (sheet_names wb) dfs).
Proof.
  intros Hrun.
  destruct (main_report args fs fs' Hrun) as (data & wb & w & Hd & Hwb & Hrep & _ & _ & Hj).
  destruct (report_paths _ _ _ _ Hrep) as (dfs0 & Hdfs0 & Hpaths).
  destruct Hrep as (dfs & csvs & shs & Hdfs & Hcsvs & _ & Hw).
  assert (dfs0 = dfs) as ->.
  { clear -Hdfs0 Hdfs. revert dfs Hdfs. induction Hdfs0; intros ? Hd; inversion Hd; subst;
      [reflexivity|]. f_equal; [congruence | auto]. }
  exists data, wb, dfs, w. repeat (split; [assumption|]). cbv zeta.
  split; [|split].
  - rewrite Hpaths, benford_path_written.
    assert (Hb : (match benford_rows_all (combine (sheet_names wb) dfs) with
                  | [] => false | _ => true end) = true
                 <-> benford_rows_all (combine (sheet_names wb) dfs) <> [])
      by (destruct (benford_rows_all _); split; congruence).
    rewrite Hb, benford_rows_all_nonempty. split.
    + intros ([n df] & col & Hin & Hcol & Happ).
      apply (in_combine_parse wb _ _ n df Hdfs) in Hin as [Hn Hp]. eauto 8.
    + intros (n & df & col & Hn & Hp & Hcol & Happ). exists (n, df), col.
      split; [apply (in_combine_parse wb _ _ n df Hdfs); auto | auto].
  - intros Hne. cbv zeta in Hw. rewrite Hw.
    destruct (benford_rows_all (combine (sheet_names wb) dfs)) eqn:E; [congruence|].
    rewrite !in_app_iff. right. right. left. now left.
  - unfold benford_rows_all, benford_rows_of.
    generalize (combine (sheet_names wb) dfs) as sheets. intros sheets.
    induction sheets as [|nd l IH]; [reflexivity|].
    cbn [flat_map]. rewrite map_app, IH, map_map. reflexivity.
Qed.

Lemma length_column_stats_of (sheets : list (string * DataFrame)) :
  length (column_stats_of sheets)
  = list_sum (map (fun nd => length (df_columns (snd nd))) sheets).
Proof.
  unfold column_stats_of. induction sheets as [|nd l IH]; [reflexivity|].
  cbn [flat_map map]. rewrite length_app, length_map, IH. reflexivity.
Qed.

Lemma list_sum_combine_columns (names : list string) (dfs : list DataFrame) :
  length names = length dfs ->
  list_sum (map (fun nd => length (df_columns (snd nd))) (combine names dfs))
  = list_sum (map (fun df => length (df_columns df)) dfs).
Proof.
  revert names. induction dfs as [|df dfs IH]; intros [|n names] Hl; try discriminate;
    [reflexivity|].
  cbn [combine map snd]. change (list_sum (?a :: ?t)) with (a + list_sum t)%nat.
  f_equal. apply IH. simpl in Hl. lia.
Qed.

(** X12. A successful run writes [column_stats.csv] as the rendering of
    one row per column of every sheet, sheet after sheet and column after
    column, each row tagged with its sheet and column. *)
Theorem column_stats_written (args : Args) (fs fs' : FS) :
  main args fs = (Ok tt, fs') ->
  exists data wb dfs rows w,
    files fs !! input args = Some data
    /\ open_excel data = Ok wb
    /\ Forall2 (fun n df => parse wb n = Ok df) (sheet_names wb) dfs
    /\ journal fs' = journal fs ++ w
    /\ In (joinpath (output args) "column_stats.csv", column_stats_csv rows) w
    /\ length rows = list_sum (map (fun df => length (df_columns df)) dfs)
    /\ map (fun r => (cs_sheet r, cs_column r)) rows
       = flat_map (fun nd => map (fun col => (fst nd, fst col)) (df_columns (snd nd)))
           (combine (sheet_names wb) dfs)
    /\ Forall (fun r => cs_unique r <= cs_non_null r)%nat rows.
Proof.
  intros Hrun.
  destruct (main_report args fs fs' Hrun) as (data & wb & w & Hd & Hwb & Hrep & _ & _ & Hj).
  destruct Hrep as (dfs & csvs & shs & Hdfs & Hcsvs & _ & Hw). cbv zeta in Hw.
  exists data, wb, dfs, (column_stats_of (combine (sheet_names wb) dfs)), w.
  repeat (split; [assumption|]).
  split; [rewrite Hw, !in_app_iff; right; left; now left|].
  split; [|split].
  - rewrite length_column_stats_of. apply list_sum_combine_columns.
    eapply Forall2_length; eauto.
  - unfold column_stats_of. generalize (combine (sheet_names wb) dfs) as sheets.
    intros sheets. induction sheets as [|nd l IH]; [reflexivity|].
    cbn [flat_map]. rewrite map_app, IH, map_map. reflexivity.
  - unfold column_stats_of. apply Forall_forall. intros r Hr.
    apply list_elem_of_In, in_flat_map in Hr as (nd & _ & Hr).
    apply in_map_iff in Hr as (col & <- & _).
    apply nunique_le_notna.
Qed.

Lemma describes_sheets (sheets : list (string * DataFrame)) (shs : list SheetSummary) :
  Forall2 describes sheets shs -> map sheet shs = map fst sheets.
Proof. induction 1 as [|nd sh l shs (Hs & _) _ IH]; [reflexivity|]. cbn [map]. congruence. Qed.

Lemma fst_combine_parse (wb : ExcelFile) (names : list string) (dfs : list DataFrame) :
  Forall2 (fun n df => parse wb n = Ok df) names dfs -> map fst (combine names dfs) = names.
Proof. induction 1; [reflexivity|]. cbn [combine map fst]. congruence. Qed.

(** X13. A successful run writes [summary.json] as the rendering of a
    summary that carries the file name of the workbook, the number of its
    sheets, and one record per sheet in workbook order, each with the name,
    the row count, the column count and the column names of its table. *)
Theorem summary_written (args : Args) (fs fs' : FS) :
  main args fs = (Ok tt, fs') ->
  exists data wb dfs summary w,
    files fs !! input args = Some data
    /\ open_excel data = Ok wb
    /\ Forall2 (fun n df => parse wb n = Ok df) (sheet_names wb) dfs
    /\ journal fs' = journal fs ++ w
    /\ In (joinpath (output args) "summary.json", json_dumps summary) w
    /\ workbook summary = path_name (input args)
    /\ sheet_count summary = length (sheet_names wb)
    /\ map sheet (sheets summary) = sheet_names wb
    /\ Forall2 describes (combine (sheet_names wb) dfs) (sheets summary).
Proof.
  intros Hrun.
  destruct (main_report args fs fs' Hrun) as (data & wb & w & Hd & Hwb & Hrep & _ & _ & Hj).
  destruct Hrep as (dfs & csvs & shs & Hdfs & Hcsvs & Hshs & Hw). cbv zeta in Hw.
  exists data, wb, dfs,
    {| workbook := path_name (input args);
       sheet_count := length (sheet_names wb);
       sheets := shs |}, w.
  repeat (split; [assumption|]).
  split; [rewrite Hw, !in_app_iff; right; left; right; now left|].
  cbn [workbook sheet_count sheets]. repeat split; [|exact Hshs].
  rewrite (describes_sheets _ _ Hshs). now apply (fst_combine_parse wb).
Qed.

Lemma in_combine_describe (dir : Path) (wb : ExcelFile) (names : list string)
    (dfs : list DataFrame) (csvs : list string) (n : string) :
  Forall2 (fun n df => parse wb n = Ok df) names dfs ->
  Forall2 (fun df csv => describe_csv df = Ok csv) dfs csvs ->
  In n names ->
  exists df csv,
    parse wb n = Ok df /\ describe_csv df = Ok csv
    /\ In (describe_path dir n, csv) (combine (map (describe_path dir) names) csvs).
Proof.
  intros Hp. revert csvs. induction Hp as [|n0 df0 names dfs H0 _ IH]; intros csvs Hc Hin;
    [destruct Hin|].
  inversion Hc as [|? csv ? csvs' Hc0 Hc']; subst. cbn [map combine].
  destruct Hin as [<-|Hin].
  - exists df0, csv. repeat split; auto. now left.
  - destruct (IH csvs' Hc' Hin) as (df & c & ? & ? & ?). exists df, c.
    repeat split; auto. now right.
Qed.

(** X14. A successful run has loaded every sheet of the workbook and
    written, for each of them, the file [describe_<sheet>.csv] with the
    descriptive statistics of that sheet's table. *)
Theorem describe_written (args : Args) (fs fs' : FS) :
  main args fs = (Ok tt, fs') ->
  exists data wb w,
    files fs !! input args = Some data
    /\ open_excel data = Ok wb
    /\ journal fs' = journal fs ++ w
    /\ forall n, In n (sheet_names wb) ->
         exists df csv,
           parse wb n = Ok df /\ describe_csv df = Ok csv
           /\ In (joinpath (output args) ("describe_" +:+ n +:+ ".csv"), csv) w.
Proof.
  intros Hrun.
  destruct (main_report args fs fs' Hrun) as (data & wb & w & Hd & Hwb & Hrep & _ & _ & Hj).
  destruct Hrep as (dfs & csvs & shs & Hdfs & Hcsvs & _ & Hw). cbv zeta in Hw.
  exists data, wb, w. repeat (split; [assumption|]).
  intros n Hn.
  destruct (in_combine_describe (output args) wb _ _ _ n Hdfs Hcsvs Hn)
    as (df & csv & Hp & Hc & Hin).
  exists df, csv. repeat (split; [assumption|]).
  rewrite Hw, in_app_iff. now left.
Qed.

(** X15. If the bytes at the input path are not a workbook, the run stops
    with the reader's exception after it has made the output directory:
    the directory and its ancestors exist afterwards, and no file is written
    or changed. *)
Theorem main_bad_workbook (args : Args) (fs : FS) (data : string) (e : exn) :
  files fs !! input args = Some data ->
  open_excel data = Raise e ->
  existsb (is_file fs) (prefixes (output args)) = false ->
  main args fs
  = (Raise e, {| dirs := dirs fs ∪ list_to_set (prefixes (output args));
                 files := files fs;
                 journal := journal fs |}).
Proof.
  intros Hdata Hopen Hfree.
  assert (Hfile : is_file fs (input args) = true)
    by (unfold is_file; apply bool_decide_eq_true; rewrite Hdata; eauto).
  unfold main, build_summary, mbind, io_bind, path_exists, mkdir, read_bytes, lift.
  rewrite Hfile, orb_true_r. cbn [negb]. rewrite Hfree. cbn [files].
  rewrite Hdata, Hopen. reflexivity.
Qed.

(** X16. If the output path is an existing file, the run stops with
    [FileExistsError] before it reads the workbook, and the file system is
    unchanged. *)
Theorem main_output_blocked (args : Args) (fs : FS) :
  is_dir fs (input args) || is_file fs (input args) = true ->
  output args <> [] ->
  is_file fs (output args) = true ->
  main args fs = (Raise (OSError "FileExistsError"), fs).
Proof.
  intros Hfound Hpath Hfile.
  assert (Hblocked : existsb (is_file fs) (prefixes (output args)) = true).
  { apply existsb_exists. exists (output args). split; [now apply prefixes_self | exact Hfile]. }
  unfold main, build_summary, mbind, io_bind, path_exists, mkdir.
  rewrite Hfound. cbn [negb]. rewrite Hblocked. reflexivity.
Qed.

Lemma append_assoc_string (a b c : string) : (a +:+ b) +:+ c = a +:+ b +:+ c.
Proof.
  induction a as [|x a IH]; [now rewrite !append_nil_l|].
  rewrite !append_cons. now rewrite IH.
Qed.

Lemma last_char_cons (c : ascii) (s : string) :
  last_char (String c s) = Some (default c (last_char s)).
Proof.
  revert c. induction s as [|d s IH]; intros c; [reflexivity|].
  change (last_char (String c (String d s))) with (last_char (String d s)).
  rewrite IH. reflexivity.
Qed.

Lemma last_char_append (a b : string) :
  last_char (a +:+ b)
  = match last_char b with
    | Some c => Some c
    | None => last_char a
    end.
Proof.
  induction a as [|c a IH]; [rewrite append_nil_l; now destruct (last_char b)|].
  rewrite append_cons, !last_char_cons, IH. now destruct (last_char b).
Qed.

Lemma join_lines_cons (l : string) (rest : list string) :
  rest <> [] -> join_lines (l :: rest) = l +:+ String "010" (join_lines rest).
Proof. destruct rest; [congruence | reflexivity]. Qed.

(** A text whose last two lines are [line] and the empty line ends with
    [line] and a line feed. *)
Lemma join_lines_closing (before : list string) (line : string) :
  exists text,
    join_lines (before ++ [line; EmptyString]) = text +:+ line +:+ String "010" EmptyString.
Proof.
  induction before as [|l before [text IH]].
  - exists EmptyString. cbn [app join_lines]. now rewrite append_nil_l.
  - exists (l +:+ String "010" text). cbn [app].
    rewrite join_lines_cons by (destruct before; discriminate).
    rewrite IH, append_assoc_string, append_cons. reflexivity.
Qed.

Lemma closing_of_last {A} (f : A -> string) (head : string) (items : list A)
    (front : list string) :
  items <> [] ->
  (forall ci, exists c, last_char (f ci) = Some c /\ c <> "."%char) ->
  exists before line c,
    front ++ (head :: map f items) ++ [EmptyString] = before ++ [line; EmptyString]
    /\ last_char line = Some c /\ c <> "."%char.
Proof.
  intros Hne Hf. destruct (exists_last Hne) as (init & ci & ->).
  destruct (Hf ci) as (c & Hc & Hdot).
  exists (front ++ head :: map f init), (f ci), c. split; [|auto].
  rewrite map_app. cbn [map app]. rewrite <- !app_assoc. reflexivity.
Qed.

(** The lines of a sheet end with a line that does not end in a full stop,
    and the empty line. *)
Lemma sheet_md_lines_closing (sh : SheetSummary) :
  format_2f_no_final_stop ->
  exists before line c,
    sheet_md_lines sh = before ++ [line; EmptyString]
    /\ last_char line = Some c /\ c <> "."%char.
Proof.
  intros Hfmt. unfold sheet_md_lines.
  destruct (numeric_summaries sh) as [|n0 ns] eqn:En.
  - destruct (date_ranges sh) as [|d0 ds] eqn:Ed.
    + eexists [_; _], _, "*"%char. split; [reflexivity|].
      split; [|discriminate]. rewrite !last_char_append. reflexivity.
    + apply (closing_of_last _ "- Date ranges:" (d0 :: ds)); [discriminate|].
      intros ci. exists ")"%char. split; [|discriminate].
      rewrite !last_char_append. reflexivity.
  - rewrite app_assoc.
    apply (closing_of_last _ "- Numeric summaries:" (n0 :: ns)); [discriminate|].
    intros ci. rewrite !last_char_append.
    destruct (last_char (format_2f (ns_sum (snd ci)))) as [c|] eqn:E.
    + exists c. split; [reflexivity|]. intros ->. exact (Hfmt _ E).
    + exists " "%char. split; [reflexivity | discriminate].
Qed.

(** Without the Benford section the narrative ends with a line that does
    not end in a full stop, and the empty line. *)
Lemma md_lines_plain_closing (name : string) (summary : Summary) :
  format_2f_no_final_stop ->
  exists before line c,
    md_lines name summary [] = before ++ [line; EmptyString]
    /\ last_char line = Some c /\ c <> "."%char.
Proof.
  intros Hfmt. unfold md_lines. rewrite !app_nil_r.
  destruct (sheets summary) as [|sh0 shs] eqn:Es.
  - eexists [_; _], _, "*"%char. split; [reflexivity|].
    split; [|discriminate]. rewrite !last_char_append. reflexivity.
  - destruct (@exists_last _ (sh0 :: shs)) as (init & sh & ->); [discriminate|].
    destruct (sheet_md_lines_closing sh Hfmt) as (before & line & c & Hsh & Hc & Hdot).
    rewrite map_app, concat_app. cbn [map concat]. rewrite app_nil_r, Hsh.
    lazymatch goal with
    | |- exists b l d, ?header ++ ?done ++ _ = _ /\ _ =>
        exists (header ++ done ++ before), line, c
    end.
    split; [|auto]. rewrite <- !app_assoc. reflexivity.
Qed.

(** The narrative ends with the pointer at the Benford table exactly when
    it was given rows of that table. *)
Lemma narrative_closing (name : string) (summary : Summary) (rows : list BenfordRow) :
  format_2f_no_final_stop ->
  ends_with benford_closing (join_lines (md_lines name summary rows)) <-> rows <> [].
Proof.
  intros Hfmt. split.
  - intros [pre Hpre] ->.
    destruct (md_lines_plain_closing name summary Hfmt) as (before & line & c & Hl & Hc & Hdot).
    rewrite Hl in Hpre. destruct (join_lines_closing before line) as [text Ht].
    rewrite Ht in Hpre. unfold benford_closing in Hpre.
    rewrite <- !append_assoc_string in Hpre. apply append_inv_tail in Hpre.
    apply (f_equal last_char) in Hpre. rewrite !last_char_append, Hc in Hpre.
    change (last_char benford_pointer) with (Some "."%char) in Hpre. congruence.
  - intros Hne. destruct rows as [|r rows]; [congruence|]. unfold md_lines.
    rewrite !app_assoc.
    match goal with
    | |- ends_with _ (join_lines (?front ++ [?h; ?e; ?b; ?pointer; ?e'])) =>
        change (front ++ [h; e; b; pointer; e'])
          with (front ++ [h; e; b] ++ [pointer; e']);
        rewrite (app_assoc front);
        destruct (join_lines_closing (front ++ [h; e; b]) pointer) as [text Ht]
    end.
    exists text. exact Ht.
Qed.

Lemma written_once (w1 w2 : list (Path * string)) (p : Path) (text text' : string) :
  ~ In p (map fst w1) -> ~ In p (map fst w2) ->
  In (p, text') (w1 ++ [(p, text)] ++ w2) -> text' = text.
Proof.
  intros H1 H2 Hin. rewrite !in_app_iff in Hin. destruct Hin as [Hin|[Hin|Hin]].
  - exfalso. apply H1, in_map_iff. now exists (p, text').
  - destruct Hin as [[= <-]|[]]. reflexivity.
  - exfalso. apply H2, in_map_iff. now exists (p, text').
Qed.

(** X17. The narrative and the Benford table agree: in a successful run
    the text written to [summary.md] ends with the line that points at
    [benford_summary.csv], and the empty line after it, exactly when that
    file is written by the same run.  This is so where the formatting of a
    number with two decimals does not end in a full stop. *)
Theorem narrative_points_at_written_table (args : Args) (fs fs' : FS) :
  format_2f_no_final_stop ->
  main args fs = (Ok tt, fs') ->
  exists w,
    journal fs' = journal fs ++ w
    /\ (exists text, In (joinpath (output args) "summary.md", text) w)
    /\ forall text, In (joinpath (output args) "summary.md", text) w ->
         (ends_with benford_closing text
          <-> In (joinpath (output args) "benford_summary.csv") (map fst w)).
Proof.
  intros Hfmt Hrun.
  destruct (main_report args fs fs' Hrun) as (data & wb & w & Hd & Hwb & Hrep & _ & _ & Hj).
  destruct (report_paths _ _ _ _ Hrep) as (dfs0 & Hdfs0 & Hpaths).
  destruct Hrep as (dfs & csvs & shs & Hdfs & Hcsvs & _ & Hw). cbv zeta in Hw.
  assert (dfs0 = dfs) as ->.
  { clear -Hdfs0 Hdfs. revert dfs Hdfs. induction Hdfs0; intros ? Hd; inversion Hd; subst;
      [reflexivity|]. f_equal; [congruence | auto]. }
  exists w. split; [exact Hj|].
  assert (Hmd : In (joinpath (output args) "summary.md",
                    join_lines (md_lines (path_name (input args))
                      {| workbook := path_name (input args);
                         sheet_count := length (sheet_names wb);
                         sheets := shs |}
                      (benford_rows_all (combine (sheet_names wb) dfs)))) w).
  { rewrite Hw. rewrite !in_app_iff. right. right. right. left. reflexivity. }
  split; [eauto|]. intros text Hin.
  assert (text = join_lines (md_lines (path_name (input args))
                      {| workbook := path_name (input args);
                         sheet_count := length (sheet_names wb);
                         sheets := shs |}
                      (benford_rows_all (combine (sheet_names wb) dfs)))) as ->.
  { rewrite Hw in Hin.
    match type of Hin with
    | In _ (?A ++ ?B ++ ?C ++ [(?q, ?t); ?i]) =>
        change (A ++ B ++ C ++ [(q, t); i]) with (A ++ B ++ C ++ [(q, t)] ++ [i]) in Hin;
        rewrite !app_assoc in Hin; rewrite <- (app_assoc _ [(q, t)] [i]) in Hin;
        apply (written_once _ _ _ _ _) in Hin; [exact Hin| |]
    end.
    - rewrite !map_app, !in_app_iff.
      rewrite (fst_combine_describe _ _ dfs) by (eauto using Forall2_length).
      rewrite in_map_iff. intros [[(n & Heq & _)|Hfix]|Hben].
      + apply (describe_path_not_fixed (output args) n "summary.md"); [simpl; tauto | exact Heq].
      + simpl in Hfix. decompose [or] Hfix; try contradiction;
          match goal with E : joinpath _ _ = joinpath _ _ |- _ =>
            apply joinpath_inj in E; discriminate E end.
      + destruct (benford_rows_all (combine (sheet_names wb) dfs)); simpl in Hben;
          decompose [or] Hben; try contradiction;
          match goal with E : joinpath _ _ = joinpath _ _ |- _ =>
            apply joinpath_inj in E; discriminate E end.
    - simpl. intros [E|[]]. apply joinpath_inj in E. discriminate E. }
  rewrite (narrative_closing _ _ _ Hfmt), Hpaths, benford_path_written.
  destruct (benford_rows_all (combine (sheet_names wb) dfs)); split; congruence.
Qed.





Lemma dict_get_set_other {V} (k k' : string) (v : V) (d : list (string * V)) :
  k' <> k -> dict_get k' (dict_set k v d) = dict_get k' d.
Proof.
  intros Hne. induction d as [|[k0 v0] d IH]; cbn [dict_set dict_get].
  - destruct (String.eqb_spec k' k); [congruence | reflexivity].
  - destruct (String.eqb_spec k k0) as [->|Hk]; cbn [dict_get].
    + destruct (String.eqb_spec k' k0); [congruence | reflexivity].
    + destruct (String.eqb_spec k' k0); [reflexivity | exact IH].
Qed.

Lemma dict_get_update {V} (c : string) (col : string * Series) (o : option V)
    (d : list (string * V)) :
  dict_get c (match o with Some v => dict_set (fst col) v d | None => d end)
  = if String.eqb c (fst col)
    then match o with Some v => Some v | None => dict_get c d end
    else dict_get c d.
Proof.
  destruct (String.eqb_spec c (fst col)) as [->|Hne], o as [v|]; auto.
  - apply dict_get_set.
  - now apply dict_get_set_other.
Qed.

Lemma column_step_dicts (sheet_name : string) (st st' : Tallies) (col : string * Series)
    (c : string) :
  column_step sheet_name st col = Ok st' ->
  dict_get c (t_numeric_summaries st')
  = latest numeric_summary c [col] (dict_get c (t_numeric_summaries st))
  /\ dict_get c (t_date_ranges st')
     = latest date_range_of c [col] (dict_get c (t_date_ranges st)).
Proof.
  unfold column_step, latest, date_range_of. cbn [fold_left].
  destruct (detect_date_range (snd col)) as [date_info|e]; [|discriminate].
  cbn [mbind result_bind]. intros Hs.
  apply bind_result_ok in Hs as (benford_info & _ & Hs).
  apply bind_result_ok in Hs as (rows & _ & [= <-]).
  cbn [t_numeric_summaries t_date_ranges]. split; apply dict_get_update.
Qed.

Lemma column_loop_dicts (sheet_name : string) (cols : list (string * Series))
    (st st' : Tallies) (c : string) :
  fold_result (column_step sheet_name) cols st = Ok st' ->
  dict_get c (t_numeric_summaries st')
  = latest numeric_summary c cols (dict_get c (t_numeric_summaries st))
  /\ dict_get c (t_date_ranges st')
     = latest date_range_of c cols (dict_get c (t_date_ranges st)).
Proof.
  revert st. induction cols as [|col cols IH]; intros st Hf; cbn [fold_result] in Hf.
  - injection Hf as <-. split; reflexivity.
  - apply bind_result_ok in Hf as (st1 & Hstep & Hrest).
    destruct (column_step_dicts _ _ _ _ c Hstep) as [Hn Hd].
    destruct (IH _ Hrest) as [Hn' Hd'].
    rewrite Hn', Hd', Hn, Hd. split; reflexivity.
Qed.

Lemma latest_absent {V} (f : Series -> option V) (c : string)
    (cols : list (string * Series)) (start : option V) :
  ~ In c (map fst cols) -> latest f c cols start = start.
Proof.
  unfold latest. revert start. induction cols as [|col cols IH]; intros start Hc;
    [reflexivity|].
  cbn [fold_left]. destruct (String.eqb_spec c (fst col)) as [->|_].
  - exfalso. apply Hc. now left.
  - apply IH. intros Hin. apply Hc. now right.
Qed.

Lemma latest_unique {V} (f : Series -> option V) (c : string) (s : Series)
    (cols : list (string * Series)) :
  NoDup (map fst cols) -> In (c, s) cols -> latest f c cols None = f s.
Proof.
  induction cols as [|col cols IH]; intros Hnd Hin; [destruct Hin|].
  cbn [map] in Hnd. apply NoDup_cons in Hnd as [Hfresh Hnd].
  destruct Hin as [->|Hin].
  - unfold latest. cbn [fold_left fst snd]. rewrite String.eqb_refl.
    fold (latest f c cols (match f s with Some v => Some v | None => None end)).
    rewrite latest_absent by (intros Hc; apply Hfresh; now apply list_elem_of_In).
    now destruct (f s).
  - unfold latest. cbn [fold_left].
    destruct (String.eqb_spec c (fst col)) as [->|_].
    + exfalso. apply Hfresh. apply list_elem_of_In, in_map_iff. exists (fst col, s).
      split; [reflexivity | exact Hin].
    + now apply IH.
Qed.

(** X19. In the record of a sheet whose columns have distinct names, the
    entry of the numeric summaries under a column's name is the numeric
    summary of that column, and the entry of the date ranges is its date
    range; a column without the analysis, and a name that is no column, have
    no entry. *)
Theorem column_loop_lookup (sheet_name : string) (cols : list (string * Series))
    (column_rows : list ColumnStat) (benford_rows : list BenfordRow) :
  NoDup (map fst cols) ->
  exists st',
    fold_result (column_step sheet_name) cols
      {| t_date_ranges := []; t_numeric_summaries := [];
         t_column_rows := column_rows; t_benford_rows := benford_rows |} = Ok st'
    /\ (forall c s, In (c, s) cols ->
          dict_get c (t_numeric_summaries st') = numeric_summary s
          /\ dict_get c (t_date_ranges st') = date_range_of s)
    /\ (forall c, ~ In c (map fst cols) ->
          dict_get c (t_numeric_summaries st') = None
          /\ dict_get c (t_date_ranges st') = None).
Proof.
  intros Hnd.
  destruct (column_loop_run sheet_name cols
              {| t_date_ranges := []; t_numeric_summaries := [];
                 t_column_rows := column_rows; t_benford_rows := benford_rows |})
    as (st' & Hrun & _).
  exists st'. split; [exact Hrun|]. split.
  - intros c s Hin. destruct (column_loop_dicts _ _ _ _ c Hrun) as [-> ->].
    cbn [t_numeric_summaries t_date_ranges dict_get].
    split; now apply latest_unique.
  - intros c Hc. destruct (column_loop_dicts _ _ _ _ c Hrun) as [-> ->].
    cbn [t_numeric_summaries t_date_ranges dict_get].
    split; now apply latest_absent.
Qed.

End ReportMore.
(* ===================================================================== *)
(** ** Runs that fail *)
(* ===================================================================== *)

Section Confinement.

Variable dir : Path.
Variable P : Path -> Prop.

Lemma confined_refl (fs : FS) : confined dir P fs fs.
Proof.
  repeat split; auto. exists []. split; [now rewrite app_nil_r | intros p []].
Qed.

Lemma confined_trans (fs1 fs2 fs3 : FS) :
  confined dir P fs1 fs2 -> confined dir P fs2 fs3 -> confined dir P fs1 fs3.
Proof.
  intros (Hd1 & Hn1 & Hf1 & Hs1 & w1 & Hj1 & Hw1) (Hd2 & Hn2 & Hf2 & Hs2 & w2 & Hj2 & Hw2).
  split; [auto|]. split; [|split; [|split]].
  - intros d Hd. destruct (Hn2 d Hd) as [Hd'|Hd']; auto.
  - intros p Hp. rewrite Hf2, Hf1; auto.
  - auto.
  - exists (w1 ++ w2). split; [now rewrite Hj2, Hj1, app_assoc|].
    intros p Hp. rewrite map_app, in_app_iff in Hp. destruct Hp; auto.
Qed.

Lemma always_ret {A} (a : A) : always (confined dir P) (mret a : io A).
Proof. intros fs. apply confined_refl. Qed.

Lemma always_lift {A} (r : result A) : always (confined dir P) (lift r).
Proof. intros fs. apply confined_refl. Qed.

Lemma always_raise {A} (e : exn) : always (confined dir P) (raise e : io A).
Proof. intros fs. apply confined_refl. Qed.

Lemma always_path_exists (p : Path) : always (confined dir P) (path_exists p).
Proof. intros fs. apply confined_refl. Qed.

Lemma always_read_bytes (p : Path) : always (confined dir P) (read_bytes p).
Proof. intros fs. unfold read_bytes. destruct (files fs !! p); apply confined_refl. Qed.

Lemma always_mkdir : always (confined dir P) (mkdir dir).
Proof.
  intros fs. unfold mkdir. destruct (existsb (is_file fs) (prefixes dir));
    [apply confined_refl|].
  cbn [snd]. unfold confined. cbn [dirs files journal].
  split; [intros d Hd; apply elem_of_union; now left|].
  split.
  { intros d Hd. apply elem_of_union in Hd as [Hd|Hd]; [now left|].
    right. now apply elem_of_list_to_set, list_elem_of_In in Hd. }
  repeat split; auto. exists []. split; [now rewrite app_nil_r | intros p []].
Qed.

Lemma always_write (p : Path) (data : string) :
  P p -> always (confined dir P) (write_text p data).
Proof.
  intros HP fs. unfold write_text. destruct (is_dir fs p); [apply confined_refl|].
  destruct (negb (is_dir fs (removelast p))); [apply confined_refl|].
  cbn [snd]. unfold confined. cbn [dirs files journal].
  split; [auto|]. split; [auto|]. split; [|split].
  - intros q Hq. apply lookup_insert_ne. intros ->. now apply Hq.
  - intros q Hq. destruct (decide (p = q)) as [->|Hne].
    + rewrite lookup_insert_eq. eauto.
    + now rewrite lookup_insert_ne.
  - exists [(p, data)]. split; [reflexivity|]. intros q [<-|[]]. exact HP.
Qed.

Lemma always_bind {A B} (m : io A) (k : A -> io B) :
  always (confined dir P) m -> (forall a, always (confined dir P) (k a)) ->
  always (confined dir P) (m ≫= k).
Proof.
  intros Hm Hk fs. specialize (Hm fs). unfold mbind, io_bind.
  destruct (m fs) as [[a|e] fs1]; cbn [snd] in *; [|exact Hm].
  eapply confined_trans; [exact Hm | apply Hk].
Qed.

Lemma always_foldM {A S} (f : S -> A -> io S) (xs : list A) (s : S) :
  (forall s x, always (confined dir P) (f s x)) -> always (confined dir P) (foldM f xs s).
Proof.
  intros Hf. revert s. induction xs as [|x xs IH]; intros s; cbn [foldM].
  - apply always_ret.
  - apply always_bind; auto.
Qed.

Lemma always_foldM_in {A S} (f : S -> A -> io S) (xs : list A) (s : S) :
  (forall s x, In x xs -> always (confined dir P) (f s x)) ->
  always (confined dir P) (foldM f xs s).
Proof.
  revert s. induction xs as [|x xs IH]; intros s Hf; cbn [foldM].
  - apply always_ret.
  - apply always_bind; [apply Hf; now left|].
    intros s'. apply IH. intros s0 x0 Hin. apply Hf. now right.
Qed.

Lemma fails_always {A} (m : io A) : always (confined dir P) m -> fails (confined dir P) m.
Proof. intros Hm fs e fs' Hrun. specialize (Hm fs). now rewrite Hrun in Hm. Qed.

Lemma fails_bind {A B} (m : io A) (k : A -> io B) :
  always (confined dir P) m -> (forall a, fails (confined dir P) (k a)) ->
  fails (confined dir P) (m ≫= k).
Proof.
  intros Hm Hk fs e fs' Hrun. specialize (Hm fs). unfold mbind, io_bind in Hrun.
  destruct (m fs) as [[a|e1] fs1]; cbn [snd] in Hm.
  - eapply confined_trans; [exact Hm | eapply Hk, Hrun].
  - now injection Hrun as _ <-.
Qed.

Lemma fails_write (p : Path) (data : string) : fails (confined dir P) (write_text p data).
Proof.
  intros fs e fs'. unfold write_text.
  repeat match goal with
         | |- context [if ?b then _ else _] => destruct b
         end; intros [= _ <-] || discriminate; apply confined_refl.
Qed.

End Confinement.

Lemma bind_raise {A B} (m : io A) (k : A -> io B) (fs fs' : FS) (e : exn) :
  (m ≫= k) fs = (Raise e, fs') ->
  m fs = (Raise e, fs')
  \/ exists a fs1, m fs = (Ok a, fs1) /\ k a fs1 = (Raise e, fs').
Proof.
  unfold mbind, io_bind. destruct (m fs) as [[a|e1] fs1]; [eauto|].
  intros [= <- <-]. now left.
Qed.

Section FailureMore.

Context `{L : Library}.

Lemma report_path_fixed (dir : Path) (name : string) :
  name <> "index.md" -> report_path dir (joinpath dir name).
Proof.
  intros Hname. split; [now exists name|]. intros H. now apply joinpath_inj in H.
Qed.

Lemma report_path_describe (dir : Path) (n : string) :
  report_path dir (describe_path dir n).
Proof.
  split; [unfold describe_path; eauto|]. apply describe_path_not_fixed. simpl. tauto.
Qed.

Ltac confined_steps :=
  repeat first
    [ apply always_ret
    | apply always_lift
    | apply always_mkdir
    | apply always_read_bytes
    | apply always_write; first [apply report_path_describe
                                | apply report_path_fixed; discriminate]
    | apply always_foldM; intros; unfold sheet_step
    | apply always_bind; [|intros]
    | match goal with
      | |- always _ (match ?x with _ => _ end) => destruct x
      end ].

(** A run of [build_summary] that raises has written no index, and nothing
    outside the output directory. *)
Lemma build_summary_fails (excel_path output_dir : Path) :
  fails (confined output_dir (report_path output_dir)) (build_summary excel_path output_dir).
Proof.
  unfold build_summary.
  repeat first [ apply fails_write
               | apply fails_bind; [confined_steps | intros] ].
Qed.

Lemma main_fails (args : Args) :
  fails (confined (output args) (report_path (output args))) (main args).
Proof.
  unfold main. apply fails_bind; [apply always_path_exists|]. intros found.
  destruct (negb found); [apply fails_always, always_raise | apply build_summary_fails].
Qed.

Lemma report_ends_with_index (input_name : string) (dir : Path) (wb : ExcelFile)
    (w : list (Path * string)) :
  report_of input_name dir wb w ->
  exists w0, w = w0 ++ [(joinpath dir "index.md", join_lines index_lines)].
Proof.
  intros (dfs & csvs & shs & _ & _ & _ & ->). cbv zeta.
  lazymatch goal with
  | |- exists w0, ?A ++ ?B ++ ?C ++ [?md; ?idx] = _ => exists (A ++ B ++ C ++ [md])
  end.
  now rewrite <- !app_assoc.
Qed.

Ltac inside_steps Hplain :=
  repeat first
    [ apply always_ret
    | apply always_lift
    | apply always_write;
      first [ apply directly_inside_describe; apply Hplain; assumption
            | apply directly_inside_fixed; reflexivity ]
    | apply always_foldM_in; intros; unfold sheet_step
    | apply always_bind; [|intros]
    | match goal with
      | |- always _ (match ?x with _ => _ end) => destruct x
      end ].

(** A run of [build_summary] that raises on a workbook whose sheet names
    hold no separator has written entries of the output directory only. *)
Lemma build_summary_fails_inside (excel_path output_dir : Path) (fs fs' : FS) (e : exn) :
  plain_sheets excel_path fs ->
  build_summary excel_path output_dir fs = (Raise e, fs') ->
  confined output_dir (directly_inside output_dir) fs fs'.
Proof.
  intros Hplain Hrun. unfold build_summary in Hrun.
  apply bind_raise in Hrun as [Hrun|(u & fs1 & Hmk & Hrun)].
  { exact (fails_always _ _ _ (always_mkdir _ _) _ _ _ Hrun). }
  pose proof (always_mkdir output_dir (directly_inside output_dir) fs) as Hmade.
  rewrite Hmk in Hmade. cbn [snd] in Hmade.
  apply mkdir_ok in Hmk as (Hf & _ & _).
  eapply confined_trans; [exact Hmade|]. clear Hmade.
  apply bind_raise in Hrun as [Hrun|(data & fs2 & Hrd & Hrun)].
  { exact (fails_always _ _ _ (always_read_bytes _ _ _) _ _ _ Hrun). }
  apply read_bytes_ok in Hrd as [-> Hdata]. rewrite Hf in Hdata.
  apply bind_raise in Hrun as [Hrun|(wb & fs3 & Hopen & Hrun)].
  { exact (fails_always _ _ _ (always_lift _ _ _) _ _ _ Hrun). }
  unfold lift in Hopen. injection Hopen as Hopen <-.
  specialize (Hplain data wb Hdata Hopen). rewrite forallb_forall in Hplain.
  revert Hrun.
  lazymatch goal with
  | |- ?M fs1 = _ -> _ =>
      assert (Hfails : fails (confined output_dir (directly_inside output_dir)) M);
      [|intros Hrun; exact (Hfails _ _ _ Hrun)]
  end.
  repeat first [ apply fails_write
               | apply fails_bind; [inside_steps Hplain | intros] ].
Qed.

(** X20. When no sheet name holds a path separator, a run that fails has
    touched nothing outside the output directory either: no directory and
    no file has disappeared, no directory has been made but the output
    directory and its ancestors, every file whose path does not name an
    entry of the output directory keeps its bytes, and every path written
    names an entry of the output directory. *)
Theorem failed_run_confined (args : Args) (fs fs' : FS) (e : exn) :
  plain_sheets (input args) fs ->
  main args fs = (Raise e, fs') ->
  (forall d, d ∈ dirs fs -> d ∈ dirs fs')
  /\ (forall d, d ∈ dirs fs' -> d ∈ dirs fs \/ In d (prefixes (output args)))
  /\ (forall p, ~ directly_inside (output args) p -> files fs' !! p = files fs !! p)
  /\ (forall p, is_Some (files fs !! p) -> is_Some (files fs' !! p))
  /\ exists w, journal fs' = journal fs ++ w
       /\ forall p, In p (map fst w) -> directly_inside (output args) p.
Proof.
  intros Hplain Hrun. unfold main in Hrun.
  apply bind_raise in Hrun as [Hrun|(found & fs1 & Hex & Hrun)];
    [unfold path_exists in Hrun; discriminate|].
  apply path_exists_run in Hex as [-> _].
  destruct (negb found).
  - injection Hrun as _ <-. apply confined_refl.
  - exact (build_summary_fails_inside _ _ _ _ _ Hplain Hrun).
Qed.

(** X21. The index marks a complete run: [index.md] is written by a run
    exactly when the run succeeds, it is then the last file written and its
    text is the same for every workbook, and a run that fails leaves the
    file at that path as it was. *)
Theorem index_marks_success (args : Args) (fs fs' : FS) (r : result unit) :
  main args fs = (r, fs') ->
  exists w,
    journal fs' = journal fs ++ w
    /\ (In (joinpath (output args) "index.md") (map fst w) <-> r = Ok tt)
    /\ (r = Ok tt ->
        exists w0, w = w0 ++ [(joinpath (output args) "index.md", join_lines index_lines)])
    /\ (r <> Ok tt ->
        files fs' !! joinpath (output args) "index.md"
        = files fs !! joinpath (output args) "index.md").
Proof.
  intros Hrun. destruct r as [[]|e].
  - destruct (main_report _ _ _ Hrun) as (data & wb & w & _ & _ & Hrep & _ & _ & Hj).
    destruct (report_ends_with_index _ _ _ _ Hrep) as (w0 & ->).
    exists (w0 ++ [(joinpath (output args) "index.md", join_lines index_lines)]).
    split; [exact Hj|]. split; [|split].
    + split; [reflexivity|]. intros _. rewrite map_app, in_app_iff. right. now left.
    + intros _. now exists w0.
    + intros Hne. now contradiction Hne.
  - destruct (main_fails args _ _ _ Hrun) as (_ & _ & Hf & _ & w & Hj & Hw).
    exists w. split; [exact Hj|]. split; [|split].
    + split; [|discriminate]. intros Hin. now destruct (Hw _ Hin) as [_ Hne].
    + discriminate.
    + intros _. apply Hf. intros [_ Hne]. now apply Hne.
Qed.

End FailureMore.

(* ===================================================================== *)
(** ** The further properties on the sample workbook *)
(* ===================================================================== *)

Lemma sample_run :
  main (L := Sample.library) Sample.args Sample.disk = (Ok tt, Sample.after Sample.disk).
Proof. vm_compute. reflexivity. Qed.

Lemma sample_plain_sheets (fs : FS) :
  files fs !! ["je.xlsx"] = Some Sample.book_bytes ->
  plain_sheets (L := Sample.library) (input Sample.args) fs.
Proof.
  intros Hbook data wb Hdata Hwb.
  pose proof (eq_trans (eq_sym Hdata) Hbook) as E. injection E as ->.
  vm_compute in Hwb. injection Hwb as <-. reflexivity.
Qed.

Lemma sample_format_2f : format_2f_no_final_stop (L := Sample.library).
Proof.
  intros x. destruct x as [q|[|]|]; [|vm_compute; discriminate..].
  unfold format_2f, Sample.library, Sample.two_decimals. cbv zeta.
  rewrite !last_char_append. cbn [last_char]. unfold Sample.digit_char.
  repeat match goal with
         | |- context [match ?z with _ => _ end] => destruct z
         end; discriminate.
Qed.

Lemma main_writes_only_reports_witness :
  (plain_sheets (L := Sample.library) (input Sample.args) Sample.disk
   /\ main (L := Sample.library) Sample.args Sample.disk
      = (Ok tt, Sample.after Sample.disk))
  /\ is_dir (Sample.after Sample.disk) ["out"] = true
  /\ files (Sample.after Sample.disk) !! ["je.xlsx"] = files Sample.disk !! ["je.xlsx"].
Proof.
  assert (Hplain : plain_sheets (L := Sample.library) (input Sample.args) Sample.disk)
    by (apply sample_plain_sheets; vm_compute; reflexivity).
  split; [exact (conj Hplain sample_run)|].
  destruct (main_writes_only_reports (L := Sample.library) _ _ _ Hplain sample_run)
    as (Hdir & Hframe & _).
  split; [exact Hdir|]. apply Hframe.
  intros (name & _ & E). vm_compute in E. discriminate E.
Defined.

Lemma reports_read_back_witness :
  (main (L := Sample.library) Sample.args Sample.disk = (Ok tt, Sample.after Sample.disk)
   /\ files Sample.disk !! input Sample.args = Some Sample.book_bytes
   /\ open_excel (Library := Sample.library) Sample.book_bytes = Ok Sample.book
   /\ NoDup (sheet_names Sample.book)
   /\ forallb no_separator (sheet_names Sample.book) = true)
  /\ exists w,
       journal (Sample.after Sample.disk) = journal Sample.disk ++ w
       /\ NoDup (map fst w)
       /\ forall p bytes, In (p, bytes) w ->
            directly_inside ["out"] p
            /\ files (Sample.after Sample.disk) !! p = Some bytes.
Proof.
  assert (H1 : files Sample.disk !! input Sample.args = Some Sample.book_bytes)
    by (vm_compute; reflexivity).
  assert (H2 : open_excel (Library := Sample.library) Sample.book_bytes = Ok Sample.book)
    by (vm_compute; reflexivity).
  assert (H3 : NoDup (sheet_names Sample.book))
    by (apply (bool_decide_unpack _); vm_compute; exact I).
  assert (H4 : forallb no_separator (sheet_names Sample.book) = true) by reflexivity.
  split; [exact (conj sample_run (conj H1 (conj H2 (conj H3 H4))))|].
  exact (reports_read_back (L := Sample.library) _ _ _ _ _ sample_run H1 H2 H3 H4).
Defined.

Lemma benford_table_written_iff_witness :
  main (L := Sample.library) Sample.args Sample.disk = (Ok tt, Sample.after Sample.disk)
  /\ exists w,
       journal (Sample.after Sample.disk) = journal Sample.disk ++ w
       /\ In ["out"; "benford_summary.csv"] (map fst w).
Proof.
  split; [exact sample_run|].
  destruct (benford_table_written_iff (L := Sample.library) _ _ _ sample_run)
    as (data & wb & dfs & w & Hd & Hwb & Hdfs & Hj & Hiff & _).
  exists w. split; [exact Hj|]. apply Hiff.
  vm_compute in Hd. injection Hd as <-. vm_compute in Hwb. injection Hwb as <-.
  exists "JE", Sample.journal_sheet, ("amount", Sample.amounts).
  repeat split; simpl; auto.
Defined.

Lemma column_stats_written_witness :
  main (L := Sample.library) Sample.args Sample.disk = (Ok tt, Sample.after Sample.disk)
  /\ exists rows w,
       journal (Sample.after Sample.disk) = journal Sample.disk ++ w
       /\ In (["out"; "column_stats.csv"], column_stats_csv (Library := Sample.library) rows) w
       /\ length rows = 2%nat.
Proof.
  split; [exact sample_run|].
  destruct (column_stats_written (L := Sample.library) _ _ _ sample_run)
    as (data & wb & dfs & rows & w & Hd & Hwb & Hdfs & Hj & Hin & Hlen & _).
  exists rows, w. split; [exact Hj|]. split; [exact Hin|].
  vm_compute in Hd. injection Hd as <-. vm_compute in Hwb. injection Hwb as <-.
  rewrite Hlen. cbn [sheet_names Sample.book] in Hdfs.
  inversion Hdfs as [|? df ? dfs' Hp Hrest]; subst. inversion Hrest; subst.
  vm_compute in Hp. injection Hp as <-. reflexivity.
Defined.

Lemma summary_written_witness :
  main (L := Sample.library) Sample.args Sample.disk = (Ok tt, Sample.after Sample.disk)
  /\ exists summary w,
       journal (Sample.after Sample.disk) = journal Sample.disk ++ w
       /\ In (["out"; "summary.json"], json_dumps (Library := Sample.library) summary) w
       /\ workbook summary = "je.xlsx"
       /\ map sheet (sheets summary) = ["JE"].
Proof.
  split; [exact sample_run|].
  destruct (summary_written (L := Sample.library) _ _ _ sample_run)
    as (data & wb & dfs & summary & w & Hd & Hwb & _ & Hj & Hin & Hname & _ & Hsheets & _).
  exists summary, w. split; [exact Hj|]. split; [exact Hin|].
  vm_compute in Hd. injection Hd as <-. vm_compute in Hwb. injection Hwb as <-.
  split; [exact Hname | exact Hsheets].
Defined.

Lemma describe_written_witness :
  main (L := Sample.library) Sample.args Sample.disk = (Ok tt, Sample.after Sample.disk)
  /\ exists csv w,
       journal (Sample.after Sample.disk) = journal Sample.disk ++ w
       /\ In (["out"; "describe_JE.csv"], csv) w.
Proof.
  split; [exact sample_run|].
  destruct (describe_written (L := Sample.library) _ _ _ sample_run)
    as (data & wb & w & Hd & Hwb & Hj & Hall).
  vm_compute in Hd. injection Hd as <-. vm_compute in Hwb. injection Hwb as <-.
  destruct (Hall "JE") as (df & csv & _ & _ & Hin); [simpl; tauto|].
  exists csv, w. split; [exact Hj | exact Hin].
Defined.

Lemma main_bad_workbook_witness :
  files text_disk !! input Sample.args = Some "plain text"
  /\ open_excel (Library := Sample.library) "plain text" = Raise ValueError
  /\ existsb (is_file text_disk) (prefixes (output Sample.args)) = false
  /\ main (L := Sample.library) Sample.args text_disk
     = (Raise ValueError,
        {| dirs := dirs text_disk ∪ list_to_set (prefixes (output Sample.args));
           files := files text_disk;
           journal := journal text_disk |}).
Proof.
  assert (H1 : files text_disk !! input Sample.args = Some "plain text")
    by (vm_compute; reflexivity).
  assert (H2 : open_excel (Library := Sample.library) "plain text" = Raise ValueError)
    by (vm_compute; reflexivity).
  assert (H3 : existsb (is_file text_disk) (prefixes (output Sample.args)) = false)
    by (vm_compute; reflexivity).
  repeat (split; [assumption|]).
  exact (main_bad_workbook (L := Sample.library) _ _ _ _ H1 H2 H3).
Defined.

Lemma main_output_blocked_witness :
  is_dir blocked_disk (input Sample.args) || is_file blocked_disk (input Sample.args) = true
  /\ output Sample.args <> []
  /\ is_file blocked_disk (output Sample.args) = true
  /\ main (L := Sample.library) Sample.args blocked_disk
     = (Raise (OSError "FileExistsError"), blocked_disk).
Proof.
  assert (H1 : is_dir blocked_disk (input Sample.args)
               || is_file blocked_disk (input Sample.args) = true)
    by (vm_compute; reflexivity).
  assert (H2 : output Sample.args <> []) by (vm_compute; discriminate).
  assert (H3 : is_file blocked_disk (output Sample.args) = true)
    by (vm_compute; reflexivity).
  repeat (split; [assumption|]).
  exact (main_output_blocked (L := Sample.library) _ _ H1 H2 H3).
Defined.

Lemma narrative_points_at_written_table_witness :
  (format_2f_no_final_stop (L := Sample.library)
   /\ main (L := Sample.library) Sample.args Sample.disk
      = (Ok tt, Sample.after Sample.disk))
  /\ exists w,
       journal (Sample.after Sample.disk) = journal Sample.disk ++ w
       /\ (exists text, In (["out"; "summary.md"], text) w)
       /\ forall text, In (["out"; "summary.md"], text) w ->
            (ends_with benford_closing text
             <-> In ["out"; "benford_summary.csv"] (map fst w)).
Proof.
  split; [exact (conj sample_format_2f sample_run)|].
  exact (narrative_points_at_written_table (L := Sample.library) _ _ _
           sample_format_2f sample_run).
Defined.


Lemma column_loop_lookup_witness :
  NoDup (map fst (df_columns Sample.journal_sheet))
  /\ exists st',
       fold_result (column_step (L := Sample.library) "JE") (df_columns Sample.journal_sheet)
         {| t_date_ranges := []; t_numeric_summaries := [];
            t_column_rows := []; t_benford_rows := [] |} = Ok st'
       /\ dict_get "amount" (t_numeric_summaries st') = numeric_summary (L := Sample.library) Sample.amounts
       /\ dict_get "date" (t_numeric_summaries st') = None.
Proof.
  assert (Hnd : NoDup (map fst (df_columns Sample.journal_sheet)))
    by (apply (bool_decide_unpack _); vm_compute; exact I).
  split; [exact Hnd|].
  destruct (column_loop_lookup (L := Sample.library) "JE" _ [] [] Hnd)
    as (st' & Hrun & Hin & _).
  exists st'. split; [exact Hrun|].
  split.
  - apply (Hin "amount" Sample.amounts). simpl. tauto.
  - destruct (Hin "date" Sample.dates) as [-> _]; [simpl; tauto | reflexivity].
Defined.

Lemma jammed_run :
  main (L := Sample.library) Sample.args jammed_disk
  = (Raise (OSError "IsADirectoryError"), Sample.after jammed_disk).
Proof. vm_compute. reflexivity. Qed.

Lemma failed_run_confined_witness :
  (plain_sheets (L := Sample.library) (input Sample.args) jammed_disk
   /\ main (L := Sample.library) Sample.args jammed_disk
      = (Raise (OSError "IsADirectoryError"), Sample.after jammed_disk))
  /\ files (Sample.after jammed_disk) !! ["je.xlsx"] = files jammed_disk !! ["je.xlsx"].
Proof.
  assert (Hplain : plain_sheets (L := Sample.library) (input Sample.args) jammed_disk)
    by (apply sample_plain_sheets; vm_compute; reflexivity).
  split; [exact (conj Hplain jammed_run)|].
  destruct (failed_run_confined (L := Sample.library) _ _ _ _ Hplain jammed_run)
    as (_ & _ & Hframe & _).
  apply Hframe. intros (name & _ & E). vm_compute in E. discriminate E.
Defined.

Lemma index_marks_success_witness :
  main (L := Sample.library) Sample.args jammed_disk
  = (Raise (OSError "IsADirectoryError"), Sample.after jammed_disk)
  /\ files (Sample.after jammed_disk) !! ["out"; "index.md"]
     = files jammed_disk !! ["out"; "index.md"].
Proof.
  split; [exact jammed_run|].
  destruct (index_marks_success (L := Sample.library) _ _ _ _ jammed_run)
    as (w & _ & _ & _ & Hkept).
  apply Hkept. discriminate.
Defined.
